(** * gofakeit: the CSV generator (csv.go)

    A shallow embedding of [CSV] and of the parts of Go's standard library
    it calls ([strings.ToLower], [fmt.Sprintf], [encoding/csv.Writer]),
    followed by the properties of the generator. *)

From Stdlib Require Import ZArith Ascii String DecimalString DecimalZ DecimalPos Lia.
From stdpp Require Import base option list gmap strings.

Local Open Scope string_scope.
Local Open Scope list_scope.
Local Open Scope Z_scope.

(** ** Go strings

    A Go string is a sequence of bytes; [string] (a list of [ascii]) is
    used for it, one [ascii] per byte. *)

Module GoString.

Definition quote : ascii := "034"%char.
Definition tab : ascii := "009"%char.
Definition lf : ascii := "010"%char.
Definition cr : ascii := "013"%char.

Definition byte (c : ascii) : N := N_of_ascii c.

(** [c >= utf8.RuneSelf] fails *)
Definition isASCIIbyte (c : ascii) : bool := (byte c <? 128)%N.

Definition isUpper (c : ascii) : bool :=
  (byte "A" <=? byte c)%N && (byte c <=? byte "Z")%N.

(** [c += 'a' - 'A'] for an upper-case byte *)
Definition lowerByte (c : ascii) : ascii :=
  if isUpper c then ascii_of_N (byte c + (byte "a" - byte "A")) else c.

Fixpoint isASCII (s : string) : bool :=
  match s with
  | EmptyString => true
  | String c r => isASCIIbyte c && isASCII r
  end.

Fixpoint mapBytes (f : ascii -> ascii) (s : string) : string :=
  match s with
  | EmptyString => EmptyString
  | String c r => String (f c) (mapBytes f r)
  end.

Fixpoint contains (c : ascii) (s : string) : bool :=
  match s with
  | EmptyString => false
  | String d r => Ascii.eqb d c || contains c r
  end.

(** [fmt.Sprintf("%d", i)] *)
Definition Sprintf_d (i : Z) : string := NilZero.string_of_int (Z.to_int i).

End GoString.

(** ** The parts of Go's runtime library that take Unicode tables

    [strings.ToLower] and [csv.Writer.fieldNeedsQuotes] consult the
    Unicode tables on input that is not plain ASCII.  The tables are taken
    as parameters; everything the generator decides on ASCII input is
    modelled in full. *)

Class Unicode := {
  (** [strings.Map(unicode.ToLower, s)], the path [strings.ToLower] takes
      when [s] has a byte [>= utf8.RuneSelf] *)
  Map_ToLower : string -> string;
  (** [unicode.IsSpace(r1)] for [r1, _ := utf8.DecodeRuneInString(field)] *)
  firstRuneIsSpace : string -> bool
}.

Module strings.
Import GoString.

(** [strings.ToLower]: ASCII-only strings are lowered byte by byte *)
Definition ToLower `{Unicode} (s : string) : string :=
  if isASCII s then mapBytes lowerByte s else Map_ToLower s.

End strings.

(** ** encoding/csv: the Writer

    The table encoder is the [Writer] of Go's encoding/csv, which is not
    part of the sources.  It is modelled as [csv.NewWriter(b)] over a
    [bytes.Buffer] with [UseCRLF] left false.  Writes to a [bytes.Buffer]
    do not fail, so the writer is the bytes written so far together with
    its [Comma], [Flush] changes nothing and [Error] returns nil. *)

Module csv.
Import GoString.

Record Writer := { Comma : ascii; buf : string }.

Definition NewWriter : Writer := {| Comma := ","%char; buf := "" |}.

Definition setComma (c : ascii) (w : Writer) : Writer :=
  {| Comma := c; buf := buf w |}.

(** [validDelim] on a one-byte rune *)
Definition validDelim (r : ascii) : bool :=
  negb (Ascii.eqb r zero) && negb (Ascii.eqb r quote) &&
  negb (Ascii.eqb r cr) && negb (Ascii.eqb r lf) && isASCIIbyte r.

(** Modelled from the spec: the quoting rule of the table encoder, which
    is missing from the sources: a field is quoted if it holds the
    delimiter, a quote, a carriage return or a line feed.  As in Go's
    [fieldNeedsQuotes], the empty field is never quoted, and the field
    [\.] and a field that starts with a space are. *)
Definition fieldNeedsQuotes `{Unicode} (comma : ascii) (field : string) : bool :=
  if String.eqb field "" then false
  else if String.eqb field "\." || contains comma field ||
          contains quote field || contains cr field || contains lf field
  then true
  else firstRuneIsSpace field.

(** Modelled from the spec: the inside of a quoted field, which the
    missing encoder writes: a quote is written twice, every other byte
    (carriage return and line feed included, as [UseCRLF] is false) as
    it is *)
Fixpoint writeQuoted (field : string) : string :=
  match field with
  | EmptyString => EmptyString
  | String c r =>
      if Ascii.eqb c quote then String quote (String quote (writeQuoted r))
      else String c (writeQuoted r)
  end.

(** Modelled from the spec: a field as the missing encoder writes it, in
    quotes when [fieldNeedsQuotes] says so *)
Definition writeField `{Unicode} (comma : ascii) (field : string) : string :=
  if fieldNeedsQuotes comma field
  then String quote (writeQuoted field +:+ String quote "")
  else field.

(** Modelled from the spec: the fields of a record as the missing encoder
    writes them, [for n, field := range record]: the delimiter goes
    before every field but the first *)
Fixpoint writeFields `{Unicode} (comma : ascii) (n : nat) (record : list string) : string :=
  match record with
  | [] => ""
  | field :: rest =>
      (if (0 <? n)%nat then String comma "" else "") +:+
      writeField comma field +:+ writeFields comma (S n) rest
  end.

(** Modelled from the spec: a record as the missing encoder writes it,
    ended by a line feed *)
Definition writeRecord `{Unicode} (comma : ascii) (record : list string) : string :=
  writeFields comma 0 record +:+ String lf "".

(** Modelled from the spec: [w.Write(record)] of the missing encoder;
    with an invalid delimiter Go's [Write] returns [errInvalidDelim] and
    writes nothing (the error is dropped by CSV) *)
Definition Write `{Unicode} (record : list string) (w : Writer) : Writer :=
  if validDelim (Comma w)
  then {| Comma := Comma w; buf := buf w +:+ writeRecord (Comma w) record |}
  else w.

(** ** A reader of RFC 4180 text

    The reader the round-trip property of the specification speaks of.
    Fields are separated by [comma], records end in a line feed or in
    carriage return and line feed; a field that starts with a quote runs
    to its closing quote, with a doubled quote standing for one quote;
    a quote elsewhere is a syntax error. *)

Inductive rstate := FieldStart | InField | InQuoted | QuoteSeen.

Fixpoint read (comma : ascii) (st : rstate) (fld : string) (rec : list string)
    (recs : list (list string)) (s : string) : option (list (list string)) :=
  match s with
  | EmptyString =>
      match st with
      | FieldStart =>
          match rec with
          | [] => Some recs
          | _ => Some (recs ++ [rec ++ [fld]])
          end
      | InField | QuoteSeen => Some (recs ++ [rec ++ [fld]])
      | InQuoted => None
      end
  | String c r =>
      match st with
      | InQuoted =>
          if Ascii.eqb c quote then read comma QuoteSeen fld rec recs r
          else read comma InQuoted (fld +:+ String c "") rec recs r
      | _ =>
          if Ascii.eqb c quote then
            match st with
            | FieldStart => read comma InQuoted fld rec recs r
            | QuoteSeen => read comma InQuoted (fld +:+ String quote "") rec recs r
            | _ => None
            end
          else if Ascii.eqb c comma then
            read comma FieldStart "" (rec ++ [fld]) recs r
          else if Ascii.eqb c lf then
            read comma FieldStart "" [] (recs ++ [rec ++ [fld]]) r
          else if Ascii.eqb c cr then
            match r with
            | String d r' =>
                if Ascii.eqb d lf
                then read comma FieldStart "" [] (recs ++ [rec ++ [fld]]) r'
                else None
            | EmptyString => None
            end
          else
            match st with
            | QuoteSeen => None
            | _ => read comma InField (fld +:+ String c "") rec recs r
            end
      end
  end.

Definition ReadAll (comma : ascii) (s : string) : option (list (list string)) :=
  read comma FieldStart "" [] [] s.

(** what the reader does at the byte [t] that follows a field: a comma
    closes the field, a line feed closes the record *)
Definition after (comma t : ascii) (fld : string) (rec : list string)
    (recs : list (list string)) (rest : string) : option (list (list string)) :=
  if Ascii.eqb t comma then read comma FieldStart "" (rec ++ [fld]) recs rest
  else read comma FieldStart "" [] (recs ++ [rec ++ [fld]]) rest.

(** a field with none of the bytes that call for quotes *)
Definition plain (comma : ascii) (s : string) : Prop :=
  contains comma s = false ∧ contains quote s = false ∧
  contains cr s = false ∧ contains lf s = false.

(** the text of the records [rows], one [Write] after the other *)
Fixpoint writeAll `{Unicode} (comma : ascii) (rows : list (list string)) : string :=
  match rows with
  | [] => ""
  | record :: rest => writeRecord comma record +:+ writeAll comma rest
  end.

End csv.

(** ** The data of csv.go *)

(** A Go map is a reference to a table that its holders share; [mapref]
    names the table and the tables live in the [heap] of the [World]. *)
Definition mapref := positive.

(** Modelled from the spec: the field descriptor [Field], declared in a
    file of the package that is missing from the sources: [Name],
    [Function] and [Params map[string][]string] ([None] is the nil map) *)
Record Field := { Name : string; Function : string; Params : option mapref }.

(** [CSVOptions]; [Fields] is a slice, [None] being the nil slice *)
Record CSVOptions := {
  Delimiter : string;
  RowCount : Z;
  Fields : option (list Field)
}.

(** What a call of [CSV] can read and change besides [*co]: the tables
    behind the [Params] maps, and the state [G] of the generators (the
    random source they draw from). *)
Record World (G : Type) := {
  heap : gmap mapref (gmap string (list string));
  gen : G
}.
Arguments heap {G} _.
Arguments gen {G} _.

(** The function registry and the values it deals in.  [GetFuncLookup]
    and [Info] are declared in files of the package that are missing from
    the sources and are taken as parameters, with [fmt.Sprintf] and
    [errors.New] of Go's library; the registry is filled when the package
    is initialised and only read afterwards. *)
Class Registry := {
  Value : Type;                       (* interface{} *)
  Error : Type;                       (* error *)
  Info : Type;
  GenState : Type;
  errors_New : string -> Error;
  Sprintf_v : Value -> string;        (* fmt.Sprintf("%v", value) *)
  GetFuncLookup : string -> option Info;
  (** [info.Call(m, info)] with [m] pointing to a copy of the field's map
      reference: the call can change the table, not the field *)
  Call : Info -> option mapref -> Info -> World GenState ->
         (Value * option Error) * World GenState
}.

Module gofakeit.
Import GoString.

Section CSV.
Context {uni : Unicode} {reg : Registry}.

Abbreviation world := (World GenState).

Definition setDelimiter (d : string) (co : CSVOptions) : CSVOptions :=
  {| Delimiter := d; RowCount := RowCount co; Fields := Fields co |}.

(** [[]rune(s)[0]] for a string whose first byte is ASCII, which is all
    [CSV] asks for: the delimiter is [","] or a tab by then *)
Definition firstRune (s : string) : ascii :=
  match s with
  | String c _ => c
  | EmptyString => zero
  end.

(** [make([]string, n)] *)
Definition make (n : nat) : list string := replicate n "".

(** [for i, field := range co.Fields { header[i] = field.Name }] *)
Fixpoint headerLoop (i : nat) (fields : list Field) (header : list string)
    : list string :=
  match fields with
  | [] => header
  | field :: rest => headerLoop (S i) rest (<[i := Name field]> header)
  end.

(** [for ii, field := range co.Fields { ... }] at row [i] *)
Fixpoint rowLoop (i : Z) (ii : nat) (fields : list Field) (vr : list string)
    (w : world) : (list string + Error) * world :=
  match fields with
  | [] => (inl vr, w)
  | field :: rest =>
      if String.eqb (Function field) "autoincrement" then
        rowLoop i (S ii) rest (<[ii := Sprintf_d i]> vr) w
      else
        match GetFuncLookup (Function field) with
        | None =>
            (inr (errors_New
                    ("Invalid function, " +:+ Function field +:+ " does not exist")),
             w)
        | Some funcInfo =>
            match Call funcInfo (Params field) funcInfo w with
            | (_, Some err, w') => (inr err, w')
            | (value, None, w') =>
                rowLoop i (S ii) rest (<[ii := Sprintf_v value]> vr) w'
            end
        end
  end.

(** [for i := 1; i < int(co.RowCount); i++ { ... }], [n] being the
    number of rounds left, [co.RowCount - i] *)
Fixpoint bodyLoop (n : nat) (i : Z) (fields : list Field) (wr : csv.Writer)
    (w : world) : (csv.Writer + Error) * world :=
  match n with
  | O => (inl wr, w)
  | S n' =>
      match rowLoop i 0 fields (make (length fields)) w with
      | (inr err, w') => (inr err, w')
      | (inl vr, w') => bodyLoop n' (i + 1) fields (csv.Write vr wr) w'
      end
  end.

(** [CSV(co)]: the pair it returns, [*co] after the call and the world
    after the call.  [RowCount] is a Go [int]; the loop index stays below
    it and does not wrap.  [w.Flush()] and [w.Error()] have nothing to
    report on a [bytes.Buffer]. *)
Definition CSV (co : CSVOptions) (w : world)
    : (option string * option Error) * CSVOptions * world :=
  let co := if String.eqb (Delimiter co) "" then setDelimiter "," co else co in
  let co := if String.eqb (strings.ToLower (Delimiter co)) "tab"
            then setDelimiter (String tab "") co else co in
  if negb (String.eqb (Delimiter co) ",") &&
     negb (String.eqb (Delimiter co) (String tab ""))
  then ((None, Some (errors_New "Invalid delimiter type")), co, w)
  else
    match Fields co with
    | None | Some [] =>
        ((None,
          Some (errors_New "Must pass fields in order to build json object(s)")),
         co, w)
    | Some fields =>
        if RowCount co <=? 0
        then ((None, Some (errors_New "Must have row count")), co, w)
        else
          let wr := csv.setComma (firstRune (Delimiter co)) csv.NewWriter in
          let header := headerLoop 0 fields (make (length fields)) in
          let wr := csv.Write header wr in
          match bodyLoop (Z.to_nat (RowCount co - 1)) 1 fields wr w with
          | (inr err, w') => ((None, Some err), co, w')
          | (inl wr, w') => ((Some (csv.buf wr), None), co, w')
          end
    end.

(** *** The row generation engine, as the specification words it

    One cell of row [i]: the row index for [autoincrement], otherwise
    the registry's generator applied to the field's parameters and
    printed with the default format. *)
Definition cell (i : Z) (field : Field) (w : world) : (string + Error) * world :=
  if String.eqb (Function field) "autoincrement" then (inl (Sprintf_d i), w)
  else
    match GetFuncLookup (Function field) with
    | None =>
        (inr (errors_New
                ("Invalid function, " +:+ Function field +:+ " does not exist")),
         w)
    | Some funcInfo =>
        match Call funcInfo (Params field) funcInfo w with
        | (_, Some err, w') => (inr err, w')
        | (value, None, w') => (inl (Sprintf_v value), w')
        end
    end.

(** the cells of row [i], field by field, the first failure ending it *)
Fixpoint rowCells (i : Z) (fields : list Field) (w : world)
    : (list string + Error) * world :=
  match fields with
  | [] => (inl [], w)
  | field :: rest =>
      match cell i field w with
      | (inr err, w') => (inr err, w')
      | (inl c, w') =>
          match rowCells i rest w' with
          | (inr err, w'') => (inr err, w'')
          | (inl cs, w'') => (inl (c :: cs), w'')
          end
      end
  end.

(** the rows [i], [i + 1], ... ([n] of them) *)
Fixpoint bodyRows (n : nat) (i : Z) (fields : list Field) (w : world)
    : (list (list string) + Error) * world :=
  match n with
  | O => (inl [], w)
  | S n' =>
      match rowCells i fields w with
      | (inr err, w') => (inr err, w')
      | (inl r, w') =>
          match bodyRows n' (i + 1) fields w' with
          | (inr err, w'') => (inr err, w'')
          | (inl rs, w'') => (inl (r :: rs), w'')
          end
      end
  end.

(** the delimiter after the first two statements of [CSV] *)
Definition normalize (d : string) : string :=
  let d := if String.eqb d "" then "," else d in
  if String.eqb (strings.ToLower d) "tab" then String tab "" else d.

(** a delimiter the validation accepts: empty, the word tab in any case,
    a comma or a tab character *)
Definition validDelimiter (d : string) : bool :=
  String.eqb d "" || String.eqb (strings.ToLower d) "tab" ||
  String.eqb d "," || String.eqb d (String tab "").

(** the three errors of the validation phase *)
Definition InvalidDelimiter : Error := errors_New "Invalid delimiter type".
Definition MissingFields : Error :=
  errors_New "Must pass fields in order to build json object(s)".
Definition MissingRowCount : Error := errors_New "Must have row count".
Definition UnknownFunction (name : string) : Error :=
  errors_New ("Invalid function, " +:+ name +:+ " does not exist").

(** [Generate(fields, rowCount, delimiter)]: the validation in its order,
    then the grid, header first *)
Definition Generate (co : CSVOptions) (w : world)
    : (list (list string) + Error) * world :=
  if negb (validDelimiter (Delimiter co)) then (inr InvalidDelimiter, w)
  else
    match Fields co with
    | None | Some [] => (inr MissingFields, w)
    | Some fields =>
        if RowCount co <=? 0 then (inr MissingRowCount, w)
        else
          match bodyRows (Z.to_nat (RowCount co - 1)) 1 fields w with
          | (inr err, w') => (inr err, w')
          | (inl rows, w') => (inl (map Name fields :: rows), w')
          end
    end.

(** the delimiter byte the encoder is given *)
Definition delimiterChar (co : CSVOptions) : ascii :=
  firstRune (normalize (Delimiter co)).

(** [Encode(grid, delimiterChar)] on a grid, an error passed on as it is *)
Definition encoded (co : CSVOptions) (r : list (list string) + Error)
    : option string * option Error :=
  match r with
  | inl grid => (Some (csv.writeAll (delimiterChar co) grid), None)
  | inr err => (None, Some err)
  end.

End CSV.

(** the rows of a table that holds row indices only: [n] rows of [width]
    cells, from index [i] on *)
Definition indexRows (n : nat) (i : Z) (width : nat) : list (list string) :=
  map (fun k => replicate width (Sprintf_d (i + Z.of_nat k))) (seq 0 n).

(** a spelling of the word tab in upper or lower case letters *)
Definition tabVariant (d : string) : bool :=
  match d with
  | String c1 (String c2 (String c3 EmptyString)) =>
      (Ascii.eqb c1 "t" || Ascii.eqb c1 "T") &&
      (Ascii.eqb c2 "a" || Ascii.eqb c2 "A") &&
      (Ascii.eqb c3 "b" || Ascii.eqb c3 "B")
  | _ => false
  end.

End gofakeit.

(** ** The [csv] entry of the registry ([addFileCSVLookup])

    The [Call] function of the entry reads the row count, the fields and
    the delimiter from the parameter map and hands them to [CSV].  The
    readers of [Info] ([GetInt], [GetStringArray], [GetString]) and
    [json.Unmarshal] are declared outside the sources and are taken as
    parameters; each gets the world and hands it on, so a reader that
    only looks at the map is one that returns the world as it got it. *)
Class Readers {reg : Registry} := {
  GetInt : Info -> option mapref -> string -> World GenState ->
           (Z * option Error) * World GenState;
  GetStringArray : Info -> option mapref -> string -> World GenState ->
                   (list string * option Error) * World GenState;
  GetString : Info -> option mapref -> string -> World GenState ->
              (string * option Error) * World GenState;
  (** [json.Unmarshal([]byte(f), &field)]: the field after the call *)
  json_Unmarshal : string -> Field -> World GenState ->
                   (Field * option Error) * World GenState
}.

Module lookup.
Import GoString gofakeit.

Section Call.
Context {uni : Unicode} {reg : Registry} {rd : Readers}.

(** the zero value of [Field], which [make([]Field, n)] is filled with *)
Definition zeroField : Field := {| Name := ""; Function := ""; Params := None |}.

Definition setRowCount (n : Z) (co : CSVOptions) : CSVOptions :=
  {| Delimiter := Delimiter co; RowCount := n; Fields := Fields co |}.

Definition setFields (fs : option (list Field)) (co : CSVOptions) : CSVOptions :=
  {| Delimiter := Delimiter co; RowCount := RowCount co; Fields := fs |}.

(** [for i, f := range fieldsStr { err = json.Unmarshal([]byte(f),
    &co.Fields[i]); if err != nil { return nil, errors.New(...) } }] *)
Fixpoint unmarshalLoop (i : nat) (fieldsStr : list string) (fields : list Field)
    (w : World GenState) : (list Field + Error) * World GenState :=
  match fieldsStr with
  | [] => (inl fields, w)
  | f :: rest =>
      match json_Unmarshal f (default zeroField (fields !! i)) w with
      | (_, Some _, w') => (inr (errors_New "Unable to decode json string"), w')
      | (field, None, w') => unmarshalLoop (S i) rest (<[i := field]> fields) w'
      end
  end.

(** the function literal given as [Call] to [AddFuncLookup("csv", ...)]:
    the pair it returns and the world after the call *)
Definition csvCall (m : option mapref) (info : Info) (w : World GenState)
    : (option string * option Error) * World GenState :=
  let co := {| Delimiter := ""; RowCount := 0; Fields := None |} in
  match GetInt info m "rowcount" w with
  | (_, Some err, w1) => ((None, Some err), w1)
  | (rowcount, None, w1) =>
      let co := setRowCount rowcount co in
      match GetStringArray info m "fields" w1 with
      | (_, Some err, w2) => ((None, Some err), w2)
      | (fieldsStr, None, w2) =>
          match
            (if (0 <? length fieldsStr)%nat
             then match unmarshalLoop 0 fieldsStr
                          (replicate (length fieldsStr) zeroField) w2 with
                  | (inr err, w3) => (inr err, w3)
                  | (inl fields, w3) => (inl (setFields (Some fields) co), w3)
                  end
             else (inl co, w2))
          with
          | (inr err, w3) => ((None, Some err), w3)
          | (inl co, w3) =>
              match GetString info m "delimiter" w3 with
              | (_, Some err, w4) => ((None, Some err), w4)
              | (delimiter, None, w4) =>
                  let co := setDelimiter delimiter co in
                  match CSV co w4 with
                  | ((_, Some err), _, w5) => ((None, Some err), w5)
                  | ((csvOut, None), _, w5) => ((csvOut, None), w5)
                  end
              end
          end
      end
  end.

(** the fields the strings decode to, one after the other, the first
    failure ending it *)
Fixpoint decodeAll (fieldsStr : list string) (w : World GenState)
    : (list Field + Error) * World GenState :=
  match fieldsStr with
  | [] => (inl [], w)
  | f :: rest =>
      match json_Unmarshal f zeroField w with
      | (_, Some _, w') => (inr (errors_New "Unable to decode json string"), w')
      | (field, None, w') =>
          match decodeAll rest w' with
          | (inr err, w'') => (inr err, w'')
          | (inl fields, w'') => (inl (field :: fields), w'')
          end
      end
  end.

(** the record the function literal hands to [CSV]: [Fields] stays nil
    when there is no field string *)
Definition request (n : Z) (fieldsStr : list string) (fields : list Field)
    (d : string) : CSVOptions :=
  {| Delimiter := d; RowCount := n;
     Fields := match fieldsStr with [] => None | _ => Some fields end |}.

End Call.
End lookup.

(** ** A small registry to run the generator on

    Three generators over a counter: [literal] returns a fixed string,
    [counter] returns the counter and advances it, [failat2] works twice
    and fails from then on. *)
Module Demo.
Import GoString.

Definition unicode : Unicode := {|
  Map_ToLower := fun s => s;
  firstRuneIsSpace := fun s =>
    match s with
    | String c _ => Ascii.eqb c " " || Ascii.eqb c tab
    | EmptyString => false
    end
|}.

Definition tick (w : World nat) : World nat :=
  {| heap := heap w; gen := S (gen w) |}.

Definition registry : Registry := {|
  Value := string;
  Error := string;
  Info := nat;
  GenState := nat;
  errors_New := fun msg => msg;
  Sprintf_v := fun v => v;
  GetFuncLookup := fun name =>
    if String.eqb name "literal" then Some 0%nat
    else if String.eqb name "counter" then Some 1%nat
    else if String.eqb name "failat2" then Some 2%nat
    else None;
  Call := fun info _ _ w =>
    match info with
    | 0%nat => (("hi, there", None), w)
    | 1%nat => ((Sprintf_d (Z.of_nat (gen w)), None), tick w)
    | _ => if (2 <=? gen w)%nat then (("", Some "boom"), w)
           else (("ok", None), tick w)
    end
|}.

Definition w0 : World nat := {| heap := ∅; gen := 0%nat |}.

Definition field (name fn : string) : Field :=
  {| Name := name; Function := fn; Params := None |}.

Definition CSV := @gofakeit.CSV unicode registry.

(** a table of two rows: the row index and the counter *)
Definition counted : CSVOptions :=
  {| Delimiter := ","; RowCount := 3;
     Fields := Some [field "id" "autoincrement"; field "n" "counter"] |}.

(** the same with the delimiter spelled out *)
Definition tabbed : CSVOptions :=
  {| Delimiter := "TaB"; RowCount := 3;
     Fields := Some [field "id" "autoincrement"; field "n" "counter"] |}.

(** nothing given at all *)
Definition blank : CSVOptions :=
  {| Delimiter := ""; RowCount := 0; Fields := None |}.

(** no row count *)
Definition rowless : CSVOptions :=
  {| Delimiter := ","; RowCount := 0;
     Fields := Some [field "id" "autoincrement"] |}.

(** a delimiter that is not accepted *)
Definition piped : CSVOptions :=
  {| Delimiter := "|"; RowCount := 3;
     Fields := Some [field "id" "autoincrement"] |}.

(** a generator that is not registered, with the header alone asked for *)
Definition unknown1 : CSVOptions :=
  {| Delimiter := ","; RowCount := 1; Fields := Some [field "id" "nosuch"] |}.

(** the same behind an [autoincrement] field, with one body row *)
Definition unknown2 : CSVOptions :=
  {| Delimiter := ","; RowCount := 2;
     Fields := Some [field "id" "autoincrement"; field "x" "nosuch"] |}.

(** a generator that fails in the third row *)
Definition failing : CSVOptions :=
  {| Delimiter := ""; RowCount := 4;
     Fields := Some [field "id" "autoincrement"; field "c" "failat2"] |}.

(** row indices only *)
Definition indices : CSVOptions :=
  {| Delimiter := "tab"; RowCount := 3;
     Fields := Some [field "id" "autoincrement"; field "k" "autoincrement"] |}.

(** [counted] with one row less *)
Definition counted2 : CSVOptions :=
  {| Delimiter := ","; RowCount := 2;
     Fields := Some [field "id" "autoincrement"; field "n" "counter"] |}.

(** [counted] under other names *)
Definition renamed : CSVOptions :=
  {| Delimiter := ","; RowCount := 3;
     Fields := Some [field "row" "autoincrement"; field "count" "counter"] |}.

(** [failing] with more rows asked for *)
Definition failing6 : CSVOptions :=
  {| Delimiter := ""; RowCount := 6;
     Fields := Some [field "id" "autoincrement"; field "c" "failat2"] |}.

(** readers that look the key up in the table behind [m]: a row count
    in decimal digits, the fields as [name:function] strings *)
Definition entry (m : option mapref) (key : string) (w : World nat)
    : option (list string) :=
  r ← m; t ← heap w !! r; t !! key.

Fixpoint splitColon (acc s : string) : option (string * string) :=
  match s with
  | EmptyString => None
  | String c r =>
      if Ascii.eqb c ":" then Some (acc, r)
      else splitColon (acc +:+ String c "") r
  end.

Definition getInt (m : option mapref) (key : string) (w : World nat)
    : (Z * option string) * World nat :=
  match entry m key w with
  | Some [s] =>
      match NilZero.int_of_string s with
      | Some d => ((Z.of_int d, None), w)
      | None => ((0, Some "not a number"), w)
      end
  | _ => ((0, Some "missing"), w)
  end.

Definition getStringArray (m : option mapref) (key : string) (w : World nat)
    : (list string * option string) * World nat :=
  match entry m key w with
  | Some l => ((l, None), w)
  | None => (([], Some "missing"), w)
  end.

Definition getString (m : option mapref) (key : string) (w : World nat)
    : (string * option string) * World nat :=
  match entry m key w with
  | Some [s] => ((s, None), w)
  | _ => (("", Some "missing"), w)
  end.

Definition unmarshal (f : string) (fld : Field) (w : World nat)
    : (Field * option string) * World nat :=
  match splitColon "" f with
  | Some (name, fn) =>
      (({| Name := name; Function := fn; Params := Params fld |}, None), w)
  | None => ((fld, Some "no colon"), w)
  end.

Definition readers : @Readers registry :=
  @Build_Readers registry
    (fun _ => getInt) (fun _ => getStringArray) (fun _ => getString) unmarshal.

Definition csvCall := @lookup.csvCall unicode registry readers.

(** a world with one parameter table *)
Definition params (rowcount : list string) (fields : list string)
    (delimiter : list string) : World nat :=
  {| heap := {[ 1%positive :=
                  <["rowcount" := rowcount]>
                    (<["fields" := fields]> {[ "delimiter" := delimiter ]}) ]};
     gen := 0%nat |}.

End Demo.

(** * Properties *)

(** ** Strings *)

Lemma append_nil_l (s : string) : "" +:+ s = s.
Proof. reflexivity. Qed.

Lemma append_cons (c : ascii) (s t : string) :
  String c s +:+ t = String c (s +:+ t).
Proof. reflexivity. Qed.

Lemma append_nil_r (s : string) : s +:+ "" = s.
Proof.
  induction s as [|c s IH]; [reflexivity|].
  now rewrite append_cons, IH.
Qed.

Lemma append_assoc (s t u : string) : (s +:+ t) +:+ u = s +:+ (t +:+ u).
Proof.
  induction s as [|c s IH]; [reflexivity|].
  now rewrite !append_cons, IH.
Qed.

Lemma append_snoc (s t : string) (c : ascii) :
  (s +:+ String c "") +:+ t = s +:+ String c t.
Proof. now rewrite append_assoc, append_cons, append_nil_l. Qed.

(** ** The writer and the reader of encoding/csv *)

Module CsvFacts.
Import GoString csv.

Section RoundTrip.
Context {uni : Unicode}.
Variable comma : ascii.
Hypothesis comma_ok : validDelim comma = true.

Lemma comma_not_quote : Ascii.eqb comma quote = false.
Proof using comma_ok.
  unfold validDelim in comma_ok.
  destruct (Ascii.eqb comma quote); [|reflexivity].
  now rewrite andb_false_r in comma_ok.
Qed.

Lemma comma_not_lf : Ascii.eqb comma lf = false.
Proof using comma_ok.
  unfold validDelim in comma_ok.
  destruct (Ascii.eqb comma lf); [|reflexivity].
  now rewrite !andb_false_r in comma_ok.
Qed.

Lemma plain_cons c s :
  plain comma (String c s) ->
  Ascii.eqb c quote = false ∧ Ascii.eqb c comma = false ∧
  Ascii.eqb c lf = false ∧ Ascii.eqb c cr = false ∧ plain comma s.
Proof.
  unfold plain; simpl.
  rewrite !orb_false_iff. tauto.
Qed.

Lemma fieldNeedsQuotes_false field :
  fieldNeedsQuotes comma field = false -> plain comma field.
Proof.
  unfold fieldNeedsQuotes, plain.
  destruct (String.eqb_spec field "") as [->|_]; [now simpl|].
  destruct (String.eqb field "\." || contains comma field ||
            contains quote field || contains cr field || contains lf field)
    eqn:E; [discriminate|].
  rewrite !orb_false_iff in E. tauto.
Qed.

(** reading the bytes of a field that needs no quotes *)
Lemma read_plain_InField f : forall fld rec recs rest,
  plain comma f ->
  read comma InField fld rec recs (f +:+ rest) =
  read comma InField (fld +:+ f) rec recs rest.
Proof.
  induction f as [|c f IH]; intros fld rec recs rest Hp.
  - now rewrite append_nil_r.
  - apply plain_cons in Hp as (Hq & Hc & Hl & Hr & Hp).
    rewrite append_cons. cbn [read].
    rewrite Hq, Hc, Hl, Hr, IH by assumption.
    now rewrite append_snoc.
Qed.

Lemma read_plain_FieldStart c f rec recs rest :
  plain comma (String c f) ->
  read comma FieldStart "" rec recs (String c f +:+ rest) =
  read comma InField (String c f) rec recs rest.
Proof.
  intros Hp. pose proof Hp as Hp'.
  apply plain_cons in Hp' as (Hq & Hc & Hl & Hr & Hp').
  rewrite append_cons. cbn [read]. rewrite Hq, Hc, Hl, Hr.
  rewrite read_plain_InField by assumption.
  now rewrite append_nil_l, append_cons.
Qed.

(** reading the inside of a quoted field up to its closing quote *)
Lemma read_writeQuoted f : forall fld rec recs rest,
  read comma InQuoted fld rec recs (writeQuoted f +:+ String quote rest) =
  read comma QuoteSeen (fld +:+ f) rec recs rest.
Proof.
  induction f as [|c f IH]; intros fld rec recs rest.
  - rewrite append_nil_r. cbn [writeQuoted]. rewrite append_nil_l.
    cbn [read]. now rewrite Ascii.eqb_refl.
  - cbn [writeQuoted].
    destruct (Ascii.eqb_spec c quote) as [->|Hne];
      rewrite !append_cons; cbn [read].
    + rewrite !Ascii.eqb_refl, IH. now rewrite append_snoc.
    + apply Ascii.eqb_neq in Hne. rewrite Hne, IH.
      now rewrite append_snoc.
Qed.

Lemma read_writeField field t rec recs rest :
  t = comma ∨ t = lf ->
  read comma FieldStart "" rec recs (writeField comma field +:+ String t rest) =
  after comma t field rec recs rest.
Proof using comma_ok.
  intros Ht.
  assert (Hq : Ascii.eqb t quote = false).
  { destruct Ht as [->| ->]; [apply comma_not_quote | reflexivity]. }
  assert (Hend : forall st fld, st = FieldStart ∨ st = InField ∨ st = QuoteSeen ->
            read comma st fld rec recs (String t rest) = after comma t fld rec recs rest).
  { intros st fld Hst. unfold after.
    destruct Ht as [->| ->].
    - destruct Hst as [->|[->| ->]]; cbn [read];
        now rewrite comma_not_quote, Ascii.eqb_refl.
    - assert (Hlc : Ascii.eqb lf comma = false)
        by (rewrite Ascii.eqb_sym; apply comma_not_lf).
      rewrite Hlc.
      destruct Hst as [->|[->| ->]]; cbn [read];
        now rewrite Hq, Hlc, Ascii.eqb_refl. }
  unfold writeField.
  destruct (fieldNeedsQuotes comma field) eqn:E.
  - rewrite append_cons, append_snoc.
    cbn [read]. rewrite Ascii.eqb_refl.
    rewrite read_writeQuoted, append_nil_l. apply Hend; auto.
  - apply fieldNeedsQuotes_false in E.
    destruct field as [|c f].
    + rewrite append_nil_l. apply Hend; auto.
    + rewrite read_plain_FieldStart by assumption. apply Hend; auto.
Qed.

(** reading a record: a field and the fields behind it, each after its
    comma, up to the line feed *)
Lemma read_writeFields fields : forall field n rec recs rest,
  (0 < n)%nat ->
  read comma FieldStart "" rec recs
    (writeField comma field +:+ writeFields comma n fields +:+ String lf rest) =
  read comma FieldStart "" [] (recs ++ [rec ++ field :: fields]) rest.
Proof using comma_ok.
  induction fields as [|g gs IH]; intros field n rec recs rest Hn.
  - cbn [writeFields]. rewrite append_nil_l.
    rewrite read_writeField by now right.
    unfold after.
    now rewrite Ascii.eqb_sym, comma_not_lf.
  - cbn [writeFields].
    destruct (Nat.ltb_spec 0 n) as [_|]; [|lia].
    rewrite !append_assoc, append_cons, append_nil_l.
    rewrite read_writeField by now left.
    unfold after. rewrite Ascii.eqb_refl.
    rewrite IH by lia.
    now rewrite <- app_assoc.
Qed.

Lemma read_writeRecord record recs rest :
  record ≠ [] ->
  read comma FieldStart "" [] recs (writeRecord comma record +:+ rest) =
  read comma FieldStart "" [] (recs ++ [record]) rest.
Proof using comma_ok.
  destruct record as [|field fields]; [congruence|]. intros _.
  unfold writeRecord. cbn [writeFields]. cbn [Nat.ltb Nat.leb].
  rewrite append_nil_l, !append_assoc, append_cons, append_nil_l.
  now rewrite read_writeFields by lia.
Qed.

Lemma read_writeAll rows : forall recs,
  Forall (fun record => record ≠ []) rows ->
  read comma FieldStart "" [] recs (writeAll comma rows) = Some (recs ++ rows).
Proof using comma_ok.
  induction rows as [|record rows IH]; intros recs Hne.
  - cbn. now rewrite app_nil_r.
  - apply Forall_cons in Hne as [Hr Hne].
    cbn [writeAll]. rewrite read_writeRecord, IH by assumption.
    now rewrite <- app_assoc.
Qed.

(** what was written is read back *)
Lemma ReadAll_writeAll rows :
  Forall (fun record => record ≠ []) rows ->
  ReadAll comma (writeAll comma rows) = Some rows.
Proof using comma_ok. intros Hne. unfold ReadAll. now rewrite read_writeAll. Qed.

End RoundTrip.

End CsvFacts.

(** ** The loops of [CSV] *)

Module EngineFacts.
Import GoString csv gofakeit.

Section Loops.
Context {uni : Unicode} {reg : Registry}.

Lemma make_S (n : nat) : make (S n) = "" :: make n.
Proof. reflexivity. Qed.

Lemma insert_at_end (pre : list string) (x y : string) (rest : list string) :
  <[length pre := x]> (pre ++ y :: rest) = (pre ++ [x]) ++ rest.
Proof.
  rewrite insert_app_r_alt by lia.
  rewrite Nat.sub_diag. cbn. now rewrite <- app_assoc.
Qed.

(** the header loop fills the slots in order with the names *)
Lemma headerLoop_fill fields : forall pre,
  headerLoop (length pre) fields (pre ++ make (length fields)) =
  pre ++ map Name fields.
Proof.
  induction fields as [|field rest IH]; intros pre; cbn [headerLoop length map].
  - reflexivity.
  - rewrite make_S, insert_at_end.
    replace (S (length pre)) with (length (pre ++ [Name field]))
      by (rewrite length_app; cbn; lia).
    rewrite IH. now rewrite <- app_assoc.
Qed.

Lemma headerLoop_names fields :
  headerLoop 0 fields (make (length fields)) = map Name fields.
Proof. apply (headerLoop_fill fields []). Qed.

(** one round of the field loop is one [cell] *)
Lemma rowLoop_step i ii field rest vr w :
  rowLoop i ii (field :: rest) vr w =
  match cell i field w with
  | (inr err, w') => (inr err, w')
  | (inl c, w') => rowLoop i (S ii) rest (<[ii := c]> vr) w'
  end.
Proof.
  cbn [rowLoop]. unfold cell.
  destruct (String.eqb (Function field) "autoincrement"); [reflexivity|].
  destruct (GetFuncLookup (Function field)) as [funcInfo|]; [|reflexivity].
  destruct (Call funcInfo (Params field) funcInfo w) as [[value [err|]] w'];
    reflexivity.
Qed.

(** the field loop fills the slots in order with the cells *)
Lemma rowLoop_fill i fields : forall pre w,
  rowLoop i (length pre) fields (pre ++ make (length fields)) w =
  match rowCells i fields w with
  | (inr err, w') => (inr err, w')
  | (inl cs, w') => (inl (pre ++ cs), w')
  end.
Proof.
  induction fields as [|field rest IH]; intros pre w.
  - cbn. now rewrite app_nil_r.
  - rewrite rowLoop_step. cbn [rowCells length].
    destruct (cell i field w) as [[c|err] w1]; [|reflexivity].
    rewrite make_S, insert_at_end.
    replace (S (length pre)) with (length (pre ++ [c]))
      by (rewrite length_app; cbn; lia).
    rewrite IH.
    destruct (rowCells i rest w1) as [[cs|err] w2]; [|reflexivity].
    now rewrite <- app_assoc.
Qed.

Lemma rowLoop_cells i fields w :
  rowLoop i 0 fields (make (length fields)) w = rowCells i fields w.
Proof.
  pose proof (rowLoop_fill i fields [] w) as E.
  cbn [length app] in E. rewrite E.
  now destruct (rowCells i fields w) as [[cs|err] w'].
Qed.

(** the row loop writes the rows of [bodyRows] one after the other *)
Lemma bodyLoop_rows n : forall i fields wr w,
  validDelim (Comma wr) = true ->
  bodyLoop n i fields wr w =
  match bodyRows n i fields w with
  | (inr err, w') => (inr err, w')
  | (inl rows, w') =>
      (inl {| Comma := Comma wr; buf := buf wr +:+ writeAll (Comma wr) rows |}, w')
  end.
Proof.
  induction n as [|n IH]; intros i fields wr w Hv; cbn [bodyLoop bodyRows].
  - cbn [writeAll]. rewrite append_nil_r. now destruct wr.
  - rewrite rowLoop_cells.
    destruct (rowCells i fields w) as [[r|err] w1]; [|reflexivity].
    rewrite IH by (unfold Write; now rewrite Hv).
    destruct (bodyRows n (i + 1) fields w1) as [[rs|err] w2]; [|reflexivity].
    unfold Write. rewrite Hv. cbn [Comma buf writeAll].
    now rewrite append_assoc.
Qed.

(** the [for] statement of the row loop: a round while [i < hi] *)
Lemma bodyLoop_for i hi fields wr w :
  bodyLoop (Z.to_nat (hi - i)) i fields wr w =
  if i <? hi then
    match rowLoop i 0 fields (make (length fields)) w with
    | (inr err, w') => (inr err, w')
    | (inl vr, w') =>
        bodyLoop (Z.to_nat (hi - (i + 1))) (i + 1) fields (Write vr wr) w'
    end
  else (inl wr, w).
Proof.
  destruct (Z.ltb_spec i hi) as [Hlt|Hge].
  - replace (Z.to_nat (hi - i)) with (S (Z.to_nat (hi - (i + 1)))) by lia.
    reflexivity.
  - replace (Z.to_nat (hi - i)) with O by lia. reflexivity.
Qed.

End Loops.
End EngineFacts.

(** ** [CSV] is validation, row generation and encoding *)

Module Refinement.
Import GoString csv gofakeit.

Section Refine.
Context {uni : Unicode} {reg : Registry}.

Lemma ToLower_comma : strings.ToLower "," = ",".
Proof. reflexivity. Qed.

Lemma ToLower_tab : strings.ToLower (String tab "") = String tab "".
Proof. reflexivity. Qed.

Lemma normalize_empty : normalize "" = ",".
Proof. reflexivity. Qed.

Lemma normalize_nonempty d :
  d ≠ "" ->
  normalize d = if String.eqb (strings.ToLower d) "tab" then String tab "" else d.
Proof.
  intros Hd. unfold normalize.
  now destruct (String.eqb_spec d "").
Qed.

(** the accepted delimiters are those that normalise to a comma or a tab *)
Lemma validDelimiter_normalize d :
  validDelimiter d =
  String.eqb (normalize d) "," || String.eqb (normalize d) (String tab "").
Proof.
  unfold validDelimiter.
  destruct (String.eqb_spec d "") as [->|Hd]; [reflexivity|].
  rewrite normalize_nonempty by assumption.
  destruct (String.eqb (strings.ToLower d) "tab"); [reflexivity|].
  reflexivity.
Qed.

Lemma validDelimiter_cases d :
  validDelimiter d = true ->
  normalize d = "," ∨ normalize d = String tab "".
Proof.
  rewrite validDelimiter_normalize, orb_true_iff, !String.eqb_eq. tauto.
Qed.

Lemma delimiterChar_valid co :
  validDelimiter (Delimiter co) = true -> validDelim (delimiterChar co) = true.
Proof.
  intros Hv. unfold delimiterChar.
  destruct (validDelimiter_cases _ Hv) as [-> | ->]; reflexivity.
Qed.

Lemma delimiterChar_cases co :
  validDelimiter (Delimiter co) = true ->
  delimiterChar co = ","%char ∨ delimiterChar co = tab.
Proof.
  intros Hv. unfold delimiterChar.
  destruct (validDelimiter_cases _ Hv) as [-> | ->]; [now left | now right].
Qed.

(** [*co] after the first two statements of [CSV] *)
Lemma delimiter_statements co :
  (let co1 := if String.eqb (Delimiter co) "" then setDelimiter "," co else co in
   if String.eqb (strings.ToLower (Delimiter co1)) "tab"
   then setDelimiter (String tab "") co1 else co1) =
  setDelimiter (normalize (Delimiter co)) co.
Proof.
  destruct co as [d n fs]. unfold normalize, setDelimiter. cbn [Delimiter RowCount Fields].
  destruct (String.eqb d ""); cbn [Delimiter RowCount Fields].
  - reflexivity.
  - now destruct (String.eqb (strings.ToLower d) "tab").
Qed.

Theorem CSV_Generate co w :
  CSV co w =
  (encoded co (Generate co w).1,
   setDelimiter (normalize (Delimiter co)) co,
   (Generate co w).2).
Proof.
  unfold CSV. cbv zeta.
  pose proof (delimiter_statements co) as E. cbv zeta in E. rewrite E. clear E.
  unfold Generate.
  cbn [Delimiter RowCount Fields setDelimiter].
  rewrite validDelimiter_normalize, negb_orb.
  destruct (String.eqb (normalize (Delimiter co)) "," ||
            String.eqb (normalize (Delimiter co)) (String tab "")) eqn:Hv.
  2:{ apply orb_false_iff in Hv as [-> ->]. reflexivity. }
  assert (Hn : negb (String.eqb (normalize (Delimiter co)) ",") &&
               negb (String.eqb (normalize (Delimiter co)) (String tab "")) = false).
  { rewrite <- negb_orb, Hv. reflexivity. }
  rewrite Hn. cbn [negb].
  destruct (Fields co) as [[|field fields]|]; try reflexivity.
  destruct (RowCount co <=? 0); [reflexivity|].
  assert (Hc : validDelim (delimiterChar co) = true).
  { apply delimiterChar_valid. now rewrite validDelimiter_normalize. }
  fold (delimiterChar co).
  rewrite EngineFacts.headerLoop_names.
  rewrite EngineFacts.bodyLoop_rows
    by (unfold Write, setComma; cbn [Comma]; rewrite Hc; exact Hc).
  destruct (bodyRows _ 1 (field :: fields) w) as [[rows|err] w']; [|reflexivity].
  cbn [fst snd encoded buf]. unfold Write, setComma. cbn [Comma buf NewWriter].
  rewrite Hc. cbn [Comma buf writeAll]. rewrite append_nil_l. reflexivity.
Qed.

End Refine.
End Refinement.

(** ** The grid *)

Module GridFacts.
Import GoString csv gofakeit.

Section Grid.
Context {uni : Unicode} {reg : Registry}.

Lemma rowCells_app i pre : forall rest w,
  rowCells i (pre ++ rest) w =
  match rowCells i pre w with
  | (inr err, w1) => (inr err, w1)
  | (inl cs, w1) =>
      match rowCells i rest w1 with
      | (inr err, w2) => (inr err, w2)
      | (inl cs', w2) => (inl (cs ++ cs'), w2)
      end
  end.
Proof.
  induction pre as [|field pre IH]; intros rest w; cbn [app rowCells].
  - now destruct (rowCells i rest w) as [[cs'|err] w2].
  - destruct (cell i field w) as [[c|err] w0]; [|reflexivity].
    rewrite IH.
    destruct (rowCells i pre w0) as [[cs|err] w1]; [|reflexivity].
    now destruct (rowCells i rest w1) as [[cs'|err] w2].
Qed.

Lemma rowCells_length i fields : forall w cs w',
  rowCells i fields w = (inl cs, w') -> length cs = length fields.
Proof.
  induction fields as [|field rest IH]; intros w cs w' E; cbn [rowCells] in E.
  - now inversion E.
  - destruct (cell i field w) as [[c|err] w1]; [|discriminate].
    destruct (rowCells i rest w1) as [[cs'|err] w2] eqn:E'; [|discriminate].
    inversion E; subst. cbn. f_equal. eauto.
Qed.

(** cell [j] of a row comes from field [j] *)
Lemma rowCells_lookup i fields : forall w cs w' j field,
  rowCells i fields w = (inl cs, w') ->
  fields !! j = Some field ->
  ∃ c w1 w2, cs !! j = Some c ∧ cell i field w1 = (inl c, w2).
Proof.
  induction fields as [|f rest IH]; intros w cs w' j field E Hj.
  - discriminate.
  - cbn [rowCells] in E.
    destruct (cell i f w) as [[c|err] w1] eqn:Ec; [|discriminate].
    destruct (rowCells i rest w1) as [[cs'|err] w2] eqn:E'; [|discriminate].
    inversion E; subst.
    destruct j as [|j]; cbn in Hj.
    + inversion Hj; subst. exists c, w, w1. split; [reflexivity | assumption].
    + destruct (IH _ _ _ _ _ E' Hj) as (c' & wa & wb & Hc & Hcell).
      exists c', wa, wb. split; assumption.
Qed.

(** a row fails with the error of one of its cells *)
Lemma rowCells_error i fields : forall w err w',
  rowCells i fields w = (inr err, w') ->
  ∃ field w1, field ∈ fields ∧ cell i field w1 = (inr err, w').
Proof.
  induction fields as [|f rest IH]; intros w err w' E; cbn [rowCells] in E.
  - discriminate.
  - destruct (cell i f w) as [[c|e] w1] eqn:Ec.
    + destruct (rowCells i rest w1) as [[cs'|e] w2] eqn:E'; [discriminate|].
      inversion E; subst.
      destruct (IH _ _ _ E') as (field & wa & Hin & Hcell).
      exists field, wa. split; [now right | assumption].
    + inversion E; subst. exists f, w. split; [now left | assumption].
Qed.

Lemma bodyRows_length n : forall i fields w rows w',
  bodyRows n i fields w = (inl rows, w') -> length rows = n.
Proof.
  induction n as [|n IH]; intros i fields w rows w' E; cbn [bodyRows] in E.
  - now inversion E.
  - destruct (rowCells i fields w) as [[r|err] w1]; [|discriminate].
    destruct (bodyRows n (i + 1) fields w1) as [[rs|err] w2] eqn:E'; [|discriminate].
    inversion E; subst. cbn. f_equal. eauto.
Qed.

(** row [k] of the body holds the cells of row index [i + k] *)
Lemma bodyRows_lookup n : forall i fields w rows w' k row,
  bodyRows n i fields w = (inl rows, w') ->
  rows !! k = Some row ->
  ∃ w1 w2, rowCells (i + Z.of_nat k) fields w1 = (inl row, w2).
Proof.
  induction n as [|n IH]; intros i fields w rows w' k row E Hk; cbn [bodyRows] in E.
  - inversion E; subst. discriminate.
  - destruct (rowCells i fields w) as [[r|err] w1] eqn:Er; [|discriminate].
    destruct (bodyRows n (i + 1) fields w1) as [[rs|err] w2] eqn:E'; [|discriminate].
    inversion E; subst.
    destruct k as [|k]; cbn in Hk.
    + inversion Hk; subst. exists w, w1.
      now replace (i + Z.of_nat 0) with i by lia.
    + destruct (IH _ _ _ _ _ _ _ E' Hk) as (wa & wb & Hrow).
      exists wa, wb.
      now replace (i + Z.of_nat (S k)) with (i + 1 + Z.of_nat k) by lia.
Qed.

(** the body fails with the error of one of its rows *)
Lemma bodyRows_error n : forall i fields w err w',
  bodyRows n i fields w = (inr err, w') ->
  ∃ k w1, (k < n)%nat ∧ rowCells (i + Z.of_nat k) fields w1 = (inr err, w').
Proof.
  induction n as [|n IH]; intros i fields w err w' E; cbn [bodyRows] in E.
  - discriminate.
  - destruct (rowCells i fields w) as [[r|e] w1] eqn:Er.
    + destruct (bodyRows n (i + 1) fields w1) as [[rs|e] w2] eqn:E'; [discriminate|].
      inversion E; subst.
      destruct (IH _ _ _ _ _ E') as (k & wa & Hk & Hrow).
      exists (S k), wa. split; [lia|].
      now replace (i + Z.of_nat (S k)) with (i + 1 + Z.of_nat k) by lia.
    + inversion E; subst. exists O, w. split; [lia|].
      now replace (i + Z.of_nat 0) with i by lia.
Qed.

(** rows that were generated do not save a later row that fails *)
Lemma bodyRows_abort a : forall b i fields w rows w1 err w2,
  bodyRows a i fields w = (inl rows, w1) ->
  rowCells (i + Z.of_nat a) fields w1 = (inr err, w2) ->
  bodyRows (a + S b) i fields w = (inr err, w2).
Proof.
  induction a as [|a IH]; intros b i fields w rows w1 err w2 Ea Er.
  - cbn [bodyRows] in Ea. inversion Ea; subst.
    replace (i + Z.of_nat 0) with i in Er by lia.
    cbn [Nat.add bodyRows]. now rewrite Er.
  - cbn [bodyRows] in Ea. cbn [Nat.add bodyRows].
    destruct (rowCells i fields w) as [[r|e] wa]; [|discriminate].
    destruct (bodyRows a (i + 1) fields wa) as [[rs|e] wb] eqn:E'; [|discriminate].
    inversion Ea; subst.
    replace (i + Z.of_nat (S a)) with (i + 1 + Z.of_nat a) in Er by lia.
    now rewrite (IH b _ _ _ _ _ _ _ E' Er).
Qed.

(** *** What the generators leave alone is left alone *)

Variable A : Type.
Variable observe : World GenState -> A.
Hypothesis Call_keeps : forall info m w,
  observe (Call info m info w).2 = observe w.

Lemma cell_keeps i field w : observe (cell i field w).2 = observe w.
Proof using Call_keeps.
  unfold cell.
  destruct (String.eqb (Function field) "autoincrement"); [reflexivity|].
  destruct (GetFuncLookup (Function field)) as [funcInfo|]; [|reflexivity].
  specialize (Call_keeps funcInfo (Params field) w).
  now destruct (Call funcInfo (Params field) funcInfo w) as [[value [err|]] w'].
Qed.

Lemma rowCells_keeps i fields : forall w,
  observe (rowCells i fields w).2 = observe w.
Proof using Call_keeps.
  induction fields as [|field rest IH]; intros w; cbn [rowCells].
  - reflexivity.
  - pose proof (cell_keeps i field w) as Hc.
    destruct (cell i field w) as [[c|err] w1]; [|exact Hc].
    specialize (IH w1).
    destruct (rowCells i rest w1) as [[cs|err] w2]; cbn [snd] in *; congruence.
Qed.

Lemma bodyRows_keeps n : forall i fields w,
  observe (bodyRows n i fields w).2 = observe w.
Proof using Call_keeps.
  induction n as [|n IH]; intros i fields w; cbn [bodyRows].
  - reflexivity.
  - pose proof (rowCells_keeps i fields w) as Hr.
    destruct (rowCells i fields w) as [[r|err] w1]; [|exact Hr].
    specialize (IH (i + 1) fields w1).
    destruct (bodyRows n (i + 1) fields w1) as [[rs|err] w2]; cbn [snd] in *; congruence.
Qed.

Lemma Generate_keeps co w : observe (Generate co w).2 = observe w.
Proof using Call_keeps.
  unfold Generate.
  destruct (negb (validDelimiter (Delimiter co))); [reflexivity|].
  destruct (Fields co) as [[|field fields]|]; try reflexivity.
  destruct (RowCount co <=? 0); [reflexivity|].
  pose proof (bodyRows_keeps (Z.to_nat (RowCount co - 1)) 1 (field :: fields) w) as Hb.
  now destruct (bodyRows _ 1 (field :: fields) w) as [[rows|err] w'].
Qed.

End Grid.
End GridFacts.

(** ** The generator *)

Module Generator.
Import GoString csv gofakeit.

Section Run.
Context {uni : Unicode} {reg : Registry}.

(** a request that passes the validation runs the row loop *)
Lemma Generate_valid co w fields :
  validDelimiter (Delimiter co) = true ->
  Fields co = Some fields ->
  fields ≠ [] ->
  0 < RowCount co ->
  Generate co w =
  match bodyRows (Z.to_nat (RowCount co - 1)) 1 fields w with
  | (inr err, w') => (inr err, w')
  | (inl rows, w') => (inl (map Name fields :: rows), w')
  end.
Proof.
  intros Hd Hf Hne Hn. unfold Generate. rewrite Hd, Hf. cbn [negb].
  destruct fields as [|field fields]; [congruence|].
  now destruct (Z.leb_spec (RowCount co) 0); [lia|].
Qed.

(** a request that yields a grid has passed the validation *)
Lemma Generate_grid co w grid w' :
  Generate co w = (inl grid, w') ->
  ∃ fields rows,
    validDelimiter (Delimiter co) = true ∧ Fields co = Some fields ∧
    fields ≠ [] ∧ 0 < RowCount co ∧
    bodyRows (Z.to_nat (RowCount co - 1)) 1 fields w = (inl rows, w') ∧
    grid = map Name fields :: rows.
Proof.
  unfold Generate.
  destruct (validDelimiter (Delimiter co)) eqn:Hd; cbn [negb]; [|discriminate].
  destruct (Fields co) as [[|field fields]|] eqn:Hf; try discriminate.
  destruct (Z.leb_spec (RowCount co) 0) as [|Hn]; [discriminate|].
  destruct (bodyRows _ 1 (field :: fields) w) as [[rows|err] w1] eqn:Hb;
    [|discriminate].
  intros E; inversion E; subst.
  exists (field :: fields), rows. repeat split; auto.
Qed.

(** no row of the grid is empty, so the reader gets every row back *)
Lemma grid_rows_nonempty n i fields w rows w' :
  fields ≠ [] ->
  bodyRows n i fields w = (inl rows, w') ->
  Forall (fun record : list string => record ≠ []) (map Name fields :: rows).
Proof.
  intros Hne Hb. apply Forall_cons. split.
  - destruct fields; [congruence | discriminate].
  - apply Forall_lookup. intros k row Hk.
    destruct (GridFacts.bodyRows_lookup _ _ _ _ _ _ _ _ Hb Hk) as (w1 & w2 & Hr).
    apply GridFacts.rowCells_length in Hr.
    destruct row; [|discriminate].
    destruct fields; [congruence | discriminate].
Qed.

(** what a successful call of [CSV] has done *)
Lemma CSV_success co w out co' w' :
  CSV co w = ((Some out, None), co', w') ->
  ∃ fields rows,
    validDelimiter (Delimiter co) = true ∧ Fields co = Some fields ∧
    fields ≠ [] ∧ 0 < RowCount co ∧
    bodyRows (Z.to_nat (RowCount co - 1)) 1 fields w = (inl rows, w') ∧
    ReadAll (delimiterChar co) out = Some (map Name fields :: rows).
Proof.
  rewrite Refinement.CSV_Generate. intros E.
  destruct (Generate co w) as [[grid|err] w1] eqn:Hg; cbn in E; [|discriminate].
  inversion E; subst.
  destruct (Generate_grid _ _ _ _ Hg) as (fields & rows & Hd & Hf & Hne & Hn & Hb & ->).
  exists fields, rows. repeat split; auto.
  apply CsvFacts.ReadAll_writeAll.
  - now apply Refinement.delimiterChar_valid.
  - eapply grid_rows_nonempty; eauto.
Qed.

(** C1: a request that passes the validation either has a cell that fails,
    or returns a table of the header and exactly [RowCount - 1] rows *)
Theorem CSV_row_count co w fields :
  validDelimiter (Delimiter co) = true ->
  Fields co = Some fields ->
  fields ≠ [] ->
  1 <= RowCount co ->
  match (CSV co w).1.1 with
  | (Some out, None) =>
      ∃ header rows,
        ReadAll (delimiterChar co) out = Some (header :: rows) ∧
        Z.of_nat (length rows) = RowCount co - 1
  | (None, Some err) =>
      ∃ i field w1 w2,
        1 <= i < RowCount co ∧ field ∈ fields ∧ cell i field w1 = (inr err, w2)
  | _ => False
  end.
Proof.
  intros Hd Hf Hne Hn.
  destruct (CSV co w) as [[[[out|] [err|]] co'] w'] eqn:E; cbn [fst].
  - rewrite Refinement.CSV_Generate in E.
    destruct (Generate co w) as [[grid|e] w1]; discriminate.
  - destruct (CSV_success _ _ _ _ _ E) as (fs & rows & _ & Hf' & _ & _ & Hb & Hr).
    exists (map Name fs), rows. split; [assumption|].
    apply GridFacts.bodyRows_length in Hb. lia.
  - rewrite Refinement.CSV_Generate in E.
    rewrite (Generate_valid co w fields) in E by (auto; lia).
    destruct (bodyRows _ 1 fields w) as [[rows|e] w1] eqn:Hb; [discriminate|].
    cbn in E. inversion E; subst.
    destruct (GridFacts.bodyRows_error _ _ _ _ _ _ Hb) as (k & wa & Hk & Hr).
    destruct (GridFacts.rowCells_error _ _ _ _ _ Hr) as (field & wb & Hin & Hc).
    exists (1 + Z.of_nat k), field, wb, w'. repeat split; auto; lia.
  - rewrite Refinement.CSV_Generate in E.
    destruct (Generate co w) as [[grid|e] w1]; discriminate.
Qed.

(** the cell of an [autoincrement] field is the row index; the registry
    and the world play no part *)
Lemma cell_autoincrement i field w :
  Function field = "autoincrement" -> cell i field w = (inl (Sprintf_d i), w).
Proof. intros Hf. unfold cell. now rewrite Hf. Qed.

(** the cell of any other field is the printed value of its generator *)
Lemma cell_generated i field w c w' :
  Function field ≠ "autoincrement" ->
  cell i field w = (inl c, w') ->
  ∃ info value,
    GetFuncLookup (Function field) = Some info ∧
    Call info (Params field) info w = ((value, None), w') ∧
    c = Sprintf_v value.
Proof.
  intros Hf. unfold cell.
  destruct (String.eqb_spec (Function field) "autoincrement"); [congruence|].
  destruct (GetFuncLookup (Function field)) as [info|]; [|discriminate].
  destruct (Call info (Params field) info w) as [[value [err|]] w1] eqn:Ec;
    [discriminate|].
  intros E; inversion E; subst. eauto.
Qed.

(** row [i] of the table a successful call returns, cell by cell *)
Lemma CSV_cells co w out co' w' :
  CSV co w = ((Some out, None), co', w') ->
  ∃ fields grid,
    Fields co = Some fields ∧
    ReadAll (delimiterChar co) out = Some grid ∧
    Z.of_nat (length grid) = RowCount co ∧
    grid !! O = Some (map Name fields) ∧
    forall i j field,
      1 <= i < RowCount co ->
      fields !! j = Some field ->
      ∃ row c w1 w2,
        grid !! Z.to_nat i = Some row ∧ length row = length fields ∧
        row !! j = Some c ∧ cell i field w1 = (inl c, w2).
Proof.
  intros E.
  destruct (CSV_success _ _ _ _ _ E) as (fields & rows & _ & Hf & _ & Hn & Hb & Hr).
  exists fields, (map Name fields :: rows).
  pose proof (GridFacts.bodyRows_length _ _ _ _ _ _ Hb) as Hlen.
  repeat split; auto.
  - cbn [length]. lia.
  - intros i j field Hi Hj.
    destruct (lookup_lt_is_Some_2 rows (Z.to_nat (i - 1))) as [row Hrow]; [lia|].
    destruct (GridFacts.bodyRows_lookup _ _ _ _ _ _ _ _ Hb Hrow) as (wa & wb & Hcells).
    replace (1 + Z.of_nat (Z.to_nat (i - 1))) with i in Hcells by lia.
    destruct (GridFacts.rowCells_lookup _ _ _ _ _ _ _ Hcells Hj)
      as (c & w1 & w2 & Hc & Hcell).
    exists row, c, w1, w2. repeat split; auto.
    + replace (Z.to_nat i) with (S (Z.to_nat (i - 1))) by lia. exact Hrow.
    + eapply GridFacts.rowCells_length; eauto.
Qed.

(** C2: in the table a successful call returns, the cell of an
    [autoincrement] field in body row [i] is the decimal string of [i],
    for [i] from 1 to [RowCount - 1], whatever the registry holds *)
Theorem CSV_autoincrement co w out co' w' :
  CSV co w = ((Some out, None), co', w') ->
  ∃ fields grid,
    Fields co = Some fields ∧
    ReadAll (delimiterChar co) out = Some grid ∧
    Z.of_nat (length grid) = RowCount co ∧
    forall i j field,
      1 <= i < RowCount co ->
      fields !! j = Some field ->
      Function field = "autoincrement" ->
      ∃ row, grid !! Z.to_nat i = Some row ∧ row !! j = Some (Sprintf_d i).
Proof.
  intros E.
  destruct (CSV_cells _ _ _ _ _ E) as (fields & grid & Hf & Hr & Hlen & _ & Hcells).
  exists fields, grid. repeat split; auto.
  intros i j field Hi Hj Hauto.
  destruct (Hcells i j field Hi Hj) as (row & c & w1 & w2 & Hrow & _ & Hc & Hcell).
  rewrite cell_autoincrement in Hcell by assumption.
  inversion Hcell; subst. eauto.
Qed.

(** requests that differ in the spelling of the delimiter only *)
Lemma CSV_same_delimiter co1 co2 w :
  normalize (Delimiter co1) = normalize (Delimiter co2) ->
  RowCount co1 = RowCount co2 ->
  Fields co1 = Fields co2 ->
  CSV co1 w = CSV co2 w.
Proof.
  intros Hd Hn Hf. rewrite !Refinement.CSV_Generate.
  assert (Hg : Generate co1 w = Generate co2 w).
  { unfold Generate.
    now rewrite !Refinement.validDelimiter_normalize, Hd, Hn, Hf. }
  rewrite Hg. unfold encoded, delimiterChar, setDelimiter.
  now rewrite Hd, Hn, Hf.
Qed.

Lemma setDelimiter_same co : setDelimiter (Delimiter co) co = co.
Proof. now destruct co. Qed.

Lemma lowerByte_t c : lowerByte c = "t"%char -> c = "t"%char ∨ c = "T"%char.
Proof.
  destruct c as [[] [] [] [] [] [] [] []]; vm_compute; intros E;
    try discriminate E; auto.
Qed.

Lemma lowerByte_a c : lowerByte c = "a"%char -> c = "a"%char ∨ c = "A"%char.
Proof.
  destruct c as [[] [] [] [] [] [] [] []]; vm_compute; intros E;
    try discriminate E; auto.
Qed.

Lemma lowerByte_b c : lowerByte c = "b"%char -> c = "b"%char ∨ c = "B"%char.
Proof.
  destruct c as [[] [] [] [] [] [] [] []]; vm_compute; intros E;
    try discriminate E; auto.
Qed.

(** a spelling of tab in letters of either case is lowered to tab *)
Lemma tabVariant_ToLower d : tabVariant d = true -> strings.ToLower d = "tab".
Proof.
  destruct d as [|c1 [|c2 [|c3 [|c4 d]]]]; cbn [tabVariant]; try discriminate.
  rewrite !andb_true_iff, !orb_true_iff, !Ascii.eqb_eq.
  intros [[[-> | ->] [-> | ->]] [-> | ->]]; reflexivity.
Qed.

(** and nothing else in ASCII is *)
Lemma ToLower_tabVariant d :
  isASCII d = true -> strings.ToLower d = "tab" -> tabVariant d = true.
Proof.
  intros Ha. unfold strings.ToLower. rewrite Ha.
  destruct d as [|c1 [|c2 [|c3 [|c4 d]]]]; cbn [mapBytes]; try discriminate.
  intros E. inversion E as [[E1 E2 E3]].
  apply lowerByte_t in E1. apply lowerByte_a in E2. apply lowerByte_b in E3.
  cbn [tabVariant].
  rewrite !andb_true_iff, !orb_true_iff, !Ascii.eqb_eq. tauto.
Qed.

(** C3: the empty delimiter stands for a comma, a spelling of tab for the
    tab character, and any other delimiter that is not a comma or a tab
    ends the call with the invalid-delimiter error and no output *)
Theorem CSV_delimiter_normalization :
  (forall co w, Delimiter co = "" -> CSV co w = CSV (setDelimiter "," co) w) ∧
  (forall co w, tabVariant (Delimiter co) = true ->
     CSV co w = CSV (setDelimiter (String tab "") co) w) ∧
  (forall co w,
     Delimiter co ≠ "" ->
     strings.ToLower (Delimiter co) ≠ "tab" ->
     Delimiter co ≠ "," ->
     Delimiter co ≠ String tab "" ->
     CSV co w = ((None, Some InvalidDelimiter), co, w)) ∧
  (forall d, isASCII d = true ->
     (strings.ToLower d = "tab" <-> tabVariant d = true)).
Proof.
  repeat split.
  - intros co w Hd. apply CSV_same_delimiter; try reflexivity.
    cbn [setDelimiter Delimiter]. now rewrite Hd.
  - intros co w Hd. apply CSV_same_delimiter; try reflexivity.
    cbn [setDelimiter Delimiter].
    destruct (String.eqb_spec (Delimiter co) "") as [E|Hne].
    { rewrite E in Hd. discriminate. }
    rewrite Refinement.normalize_nonempty by assumption.
    now rewrite (tabVariant_ToLower _ Hd).
  - intros co w Hne Hlow Hc Ht.
    rewrite Refinement.CSV_Generate.
    assert (Hnorm : normalize (Delimiter co) = Delimiter co).
    { rewrite Refinement.normalize_nonempty by assumption.
      now destruct (String.eqb_spec (strings.ToLower (Delimiter co)) "tab"). }
    assert (Hv : validDelimiter (Delimiter co) = false).
    { rewrite Refinement.validDelimiter_normalize, Hnorm.
      apply orb_false_iff. split; now apply String.eqb_neq. }
    unfold Generate. rewrite Hv, Hnorm, setDelimiter_same. reflexivity.
  - now apply ToLower_tabVariant.
  - now apply tabVariant_ToLower.
Qed.

(** C4: the delimiter is checked first and the field list second: a
    delimiter that is not accepted gives the invalid-delimiter error
    whatever the fields and the row count, and an accepted delimiter with
    a nil or empty field list gives the missing-fields error whatever the
    row count *)
Theorem CSV_validation_order :
  (forall co w, validDelimiter (Delimiter co) = false ->
     (CSV co w).1.1 = (None, Some InvalidDelimiter) ∧ (CSV co w).2 = w) ∧
  (forall co w, validDelimiter (Delimiter co) = true ->
     Fields co = None ∨ Fields co = Some [] ->
     (CSV co w).1.1 = (None, Some MissingFields) ∧ (CSV co w).2 = w).
Proof.
  split.
  - intros co w Hv. rewrite Refinement.CSV_Generate.
    unfold Generate. now rewrite Hv.
  - intros co w Hv Hf. rewrite Refinement.CSV_Generate.
    unfold Generate. rewrite Hv.
    now destruct Hf as [-> | ->].
Qed.

(** C5, amended: with an accepted delimiter and a non-empty field list, a
    row count of zero or less gives the missing-row-count error, whatever
    the fields are *)
Theorem CSV_missing_row_count co w fields :
  validDelimiter (Delimiter co) = true ->
  Fields co = Some fields ->
  fields ≠ [] ->
  RowCount co <= 0 ->
  (CSV co w).1.1 = (None, Some MissingRowCount) ∧ (CSV co w).2 = w.
Proof.
  intros Hv Hf Hne Hn. rewrite Refinement.CSV_Generate.
  unfold Generate. rewrite Hv, Hf.
  destruct fields as [|field fields]; [congruence|].
  now destruct (Z.leb_spec (RowCount co) 0); [|lia].
Qed.

(** a cell that fails ends its row, whatever the cells before it gave *)
Lemma rowCells_abort i pre field post w cs w1 err w2 :
  rowCells i pre w = (inl cs, w1) ->
  cell i field w1 = (inr err, w2) ->
  rowCells i (pre ++ field :: post) w = (inr err, w2).
Proof.
  intros Hpre Hcell. rewrite GridFacts.rowCells_app, Hpre.
  cbn [rowCells]. now rewrite Hcell.
Qed.

(** a cell that fails in row [k] ends the call with its error *)
Lemma CSV_abort co w pre field post k rows w1 cs w2 err w3 :
  validDelimiter (Delimiter co) = true ->
  Fields co = Some (pre ++ field :: post) ->
  1 <= k < RowCount co ->
  bodyRows (Z.to_nat (k - 1)) 1 (pre ++ field :: post) w = (inl rows, w1) ->
  rowCells k pre w1 = (inl cs, w2) ->
  cell k field w2 = (inr err, w3) ->
  CSV co w = ((None, Some err), setDelimiter (normalize (Delimiter co)) co, w3).
Proof.
  intros Hv Hf Hk Hrows Hpre Hcell.
  rewrite Refinement.CSV_Generate.
  assert (Hne : pre ++ field :: post ≠ []) by now destruct pre.
  rewrite (Generate_valid co w (pre ++ field :: post) Hv Hf Hne) by lia.
  replace (Z.to_nat (RowCount co - 1))
    with (Z.to_nat (k - 1) + S (Z.to_nat (RowCount co - 1 - k)))%nat by lia.
  erewrite GridFacts.bodyRows_abort; [reflexivity | exact Hrows |].
  replace (1 + Z.of_nat (Z.to_nat (k - 1))) with k by lia.
  eapply rowCells_abort; eauto.
Qed.

(** C6, amended: with a row count of two or more, a field that is not
    [autoincrement] and that the registry does not know ends the call
    with the unknown-function error that names it and with no output,
    when the cells before it in the first row have resolved *)
Theorem CSV_unknown_function co w pre field post cs w1 :
  validDelimiter (Delimiter co) = true ->
  Fields co = Some (pre ++ field :: post) ->
  2 <= RowCount co ->
  rowCells 1 pre w = (inl cs, w1) ->
  Function field ≠ "autoincrement" ->
  GetFuncLookup (Function field) = None ->
  (CSV co w).1.1 = (None, Some (UnknownFunction (Function field))).
Proof.
  intros Hv Hf Hn Hpre Hauto Hlook.
  erewrite (CSV_abort co w pre field post 1 [] w cs w1); eauto.
  - lia.
  - unfold cell.
    destruct (String.eqb_spec (Function field) "autoincrement"); [congruence|].
    rewrite Hlook. reflexivity.
Qed.

(** C7: a generator that returns an error while row [k] is built ends
    the call with that very error and no output, whatever rows were built
    before; and in the table of a successful call the cell of a field
    that is not [autoincrement] is the default format of the value its
    generator returned *)
Theorem CSV_generator_result :
  (forall co w pre field post k rows w1 cs w2 info value err w3,
     validDelimiter (Delimiter co) = true ->
     Fields co = Some (pre ++ field :: post) ->
     1 <= k < RowCount co ->
     bodyRows (Z.to_nat (k - 1)) 1 (pre ++ field :: post) w = (inl rows, w1) ->
     rowCells k pre w1 = (inl cs, w2) ->
     Function field ≠ "autoincrement" ->
     GetFuncLookup (Function field) = Some info ->
     Call info (Params field) info w2 = ((value, Some err), w3) ->
     (CSV co w).1.1 = (None, Some err) ∧ (CSV co w).2 = w3) ∧
  (forall co w out co' w',
     CSV co w = ((Some out, None), co', w') ->
     ∃ fields grid,
       Fields co = Some fields ∧
       ReadAll (delimiterChar co) out = Some grid ∧
       forall i j field,
         1 <= i < RowCount co ->
         fields !! j = Some field ->
         Function field ≠ "autoincrement" ->
         ∃ row info value w1 w2,
           grid !! Z.to_nat i = Some row ∧
           GetFuncLookup (Function field) = Some info ∧
           Call info (Params field) info w1 = ((value, None), w2) ∧
           row !! j = Some (Sprintf_v value)).
Proof.
  split.
  - intros co w pre field post k rows w1 cs w2 info value err w3
      Hv Hf Hk Hrows Hpre Hauto Hlook Hcall.
    erewrite (CSV_abort co w pre field post k rows w1 cs w2 err w3); eauto.
    unfold cell.
    destruct (String.eqb_spec (Function field) "autoincrement"); [congruence|].
    now rewrite Hlook, Hcall.
  - intros co w out co' w' E.
    destruct (CSV_cells _ _ _ _ _ E) as (fields & grid & Hf & Hr & _ & _ & Hcells).
    exists fields, grid. repeat split; auto.
    intros i j field Hi Hj Hauto.
    destruct (Hcells i j field Hi Hj) as (row & c & w1 & w2 & Hrow & _ & Hc & Hcell).
    destruct (cell_generated _ _ _ _ _ Hauto Hcell) as (info & value & Hl & Hcall & ->).
    exists row, info, value, w1, w2. repeat split; auto.
Qed.

(** C8, amended: a call leaves [RowCount] and [Fields] as they were and
    puts the normalised delimiter in [Delimiter], on success and on error
    alike; a request whose delimiter is a comma or a tab is left as it
    was; and the parameter tables are as they were when no generator
    changes them *)
Theorem CSV_frame co w :
  RowCount (CSV co w).1.2 = RowCount co ∧
  Fields (CSV co w).1.2 = Fields co ∧
  Delimiter (CSV co w).1.2 = normalize (Delimiter co) ∧
  (Delimiter co = "," ∨ Delimiter co = String tab "" -> (CSV co w).1.2 = co) ∧
  ((forall info m w0, heap (Call info m info w0).2 = heap w0) ->
   heap (CSV co w).2 = heap w).
Proof.
  rewrite Refinement.CSV_Generate. cbn [fst snd].
  repeat split.
  - intros [E | E]; rewrite E.
    + change (normalize ",") with ",".
      rewrite <- E. apply setDelimiter_same.
    + change (normalize (String tab "")) with (String tab "").
      rewrite <- E. apply setDelimiter_same.
  - intros Hkeep. now apply GridFacts.Generate_keeps.
Qed.

(** C9: in the table a successful call returns, the header holds the
    names of the fields in their order, and each body row has one cell
    for each field, cell [j] being the cell of field [j] *)
Theorem CSV_columns co w out co' w' :
  CSV co w = ((Some out, None), co', w') ->
  ∃ fields header rows,
    Fields co = Some fields ∧
    ReadAll (delimiterChar co) out = Some (header :: rows) ∧
    header = map Name fields ∧ length header = length fields ∧
    forall k row,
      rows !! k = Some row ->
      length row = length fields ∧
      forall j field,
        fields !! j = Some field ->
        ∃ c w1 w2,
          row !! j = Some c ∧ cell (Z.of_nat k + 1) field w1 = (inl c, w2).
Proof.
  intros E.
  destruct (CSV_success _ _ _ _ _ E) as (fields & rows & _ & Hf & _ & Hn & Hb & Hr).
  exists fields, (map Name fields), rows.
  split; [assumption|]. split; [assumption|]. split; [reflexivity|].
  split; [apply length_map|].
  intros k row Hk.
  destruct (GridFacts.bodyRows_lookup _ _ _ _ _ _ _ _ Hb Hk) as (wa & wb & Hcells).
  split.
  - eapply GridFacts.rowCells_length; eauto.
  - intros j field Hj.
    replace (1 + Z.of_nat k) with (Z.of_nat k + 1) in Hcells by lia.
    destruct (GridFacts.rowCells_lookup _ _ _ _ _ _ _ Hcells Hj)
      as (c & w1 & w2 & Hc & Hcell).
    eauto.
Qed.

(** the bytes a writer holds after a run of [Write] calls *)
Lemma Write_all rows : forall wr,
  validDelim (Comma wr) = true ->
  buf (foldl (fun wr record => Write record wr) wr rows) =
  buf wr +:+ writeAll (Comma wr) rows.
Proof.
  induction rows as [|record rows IH]; intros wr Hv; cbn [foldl writeAll].
  - now rewrite append_nil_r.
  - rewrite IH by (unfold Write; now rewrite Hv).
    unfold Write. rewrite Hv. cbn [Comma buf].
    now rewrite append_assoc.
Qed.

(** a field with a delimiter, a line feed or a quote in it is written in
    quotes *)
Lemma writeField_quoted comma field :
  contains comma field || contains lf field || contains quote field = true ->
  writeField comma field = String quote (writeQuoted field +:+ String quote "").
Proof.
  intros Hc. unfold writeField, fieldNeedsQuotes.
  destruct (String.eqb_spec field "") as [->|_]; [discriminate|].
  destruct (contains comma field), (contains lf field), (contains quote field);
    try discriminate; now rewrite ?orb_true_r.
Qed.

(** C10: the writer puts a cell that holds the delimiter, a line feed or a
    quote in quotes, every quote inside written twice, and a reader of
    RFC 4180 text with the same delimiter reads the rows back as they
    were written; so the table [CSV] returns reads back as the grid *)
Theorem Write_round_trip :
  (forall comma rows,
     validDelim comma = true ->
     Forall (fun record : list string => record ≠ []) rows ->
     (forall record field, record ∈ rows -> field ∈ record ->
        contains comma field || contains lf field || contains quote field = true ->
        writeField comma field =
          String quote (writeQuoted field +:+ String quote "") ∧
        read comma InQuoted "" [] [] (writeQuoted field +:+ String quote "") =
          Some [[field]]) ∧
     ReadAll comma
       (buf (foldl (fun wr record => Write record wr)
               (setComma comma NewWriter) rows)) = Some rows) ∧
  (forall co w out co' w',
     CSV co w = ((Some out, None), co', w') ->
     ∃ grid, Generate co w = (inl grid, w') ∧
             ReadAll (delimiterChar co) out = Some grid).
Proof.
  split.
  - intros comma rows Hv Hne. split.
    + intros record field _ _ Hc. split.
      * now apply writeField_quoted.
      * rewrite CsvFacts.read_writeQuoted. reflexivity.
    + rewrite Write_all by exact Hv.
      cbn [setComma NewWriter buf Comma]. rewrite append_nil_l.
      now apply CsvFacts.ReadAll_writeAll.
  - intros co w out co' w' E.
    destruct (CSV_success _ _ _ _ _ E) as (fields & rows & Hv & Hf & Hne & Hn & Hb & Hr).
    exists (map Name fields :: rows). split; [|assumption].
    rewrite (Generate_valid co w fields) by auto.
    now rewrite Hb.
Qed.

(** [Sprintf_d] writes the decimal numeral of its argument *)
Lemma Sprintf_d_decimal i :
  Z.of_int <$> NilZero.int_of_string (Sprintf_d i) = Some i.
Proof.
  unfold Sprintf_d. rewrite NilZero.isi.
  - cbn. now rewrite DecimalZ.of_to.
  - destruct i; cbn; try discriminate.
    intros E; inversion E as [E']. now apply DecimalPos.Unsigned.to_uint_nonnil in E'.
  - destruct i; cbn; try discriminate.
    intros E; inversion E as [E']. now apply DecimalPos.Unsigned.to_uint_nonnil in E'.
Qed.

End Run.

(** *** The theorems at work on the small registry *)

#[local] Existing Instance Demo.unicode.
#[local] Existing Instance Demo.registry.

Lemma Demo_Call_keeps_heap (info : nat) (m : option mapref) (w : World nat) :
  heap (Call (Registry := Demo.registry) info m info w).2 = heap w.
Proof.
  destruct info as [|[|n]]; cbn [Call Demo.registry]; try reflexivity.
  now destruct (2 <=? gen w)%nat.
Qed.

Lemma CSV_row_count_witness :
  validDelimiter (Delimiter Demo.counted) = true ∧
  1 <= RowCount Demo.counted ∧
  match (Demo.CSV Demo.counted Demo.w0).1.1 with
  | (Some out, None) =>
      ∃ header rows,
        ReadAll (delimiterChar Demo.counted) out = Some (header :: rows) ∧
        Z.of_nat (length rows) = RowCount Demo.counted - 1
  | (None, Some err) =>
      ∃ i field w1 w2,
        1 <= i < RowCount Demo.counted ∧
        field ∈ [Demo.field "id" "autoincrement"; Demo.field "n" "counter"] ∧
        cell (reg := Demo.registry) i field w1 = (inr err, w2)
  | _ => False
  end.
Proof.
  split; [reflexivity|]. split; [cbn; lia|].
  apply (CSV_row_count (reg := Demo.registry) Demo.counted Demo.w0);
    [reflexivity | reflexivity | discriminate | cbn; lia].
Defined.

Lemma CSV_autoincrement_witness :
  ∃ out co' w',
    Demo.CSV Demo.counted Demo.w0 = ((Some out, None), co', w') ∧
    ∃ fields grid,
      Fields Demo.counted = Some fields ∧
      ReadAll (delimiterChar Demo.counted) out = Some grid ∧
      Z.of_nat (length grid) = RowCount Demo.counted ∧
      forall i j field,
        1 <= i < RowCount Demo.counted ->
        fields !! j = Some field ->
        Function field = "autoincrement" ->
        ∃ row, grid !! Z.to_nat i = Some row ∧ row !! j = Some (Sprintf_d i).
Proof.
  eexists _, _, _. split; [reflexivity|].
  eapply (CSV_autoincrement (reg := Demo.registry) Demo.counted Demo.w0).
  reflexivity.
Defined.

Lemma CSV_delimiter_normalization_witness :
  Demo.CSV Demo.blank Demo.w0 = Demo.CSV (setDelimiter "," Demo.blank) Demo.w0 ∧
  Demo.CSV Demo.tabbed Demo.w0 =
    Demo.CSV (setDelimiter (String tab "") Demo.tabbed) Demo.w0 ∧
  Demo.CSV Demo.piped Demo.w0 =
    ((None, Some (InvalidDelimiter (reg := Demo.registry))), Demo.piped, Demo.w0) ∧
  (strings.ToLower "TaB" = "tab" <-> tabVariant "TaB" = true).
Proof.
  destruct (CSV_delimiter_normalization (uni := Demo.unicode) (reg := Demo.registry))
    as (Hempty & Htab & Hother & Hascii).
  split; [apply Hempty; reflexivity|].
  split; [apply Htab; reflexivity|].
  split; [apply Hother; vm_compute; discriminate|].
  apply Hascii. reflexivity.
Defined.

Lemma CSV_validation_order_witness :
  validDelimiter (Delimiter Demo.piped) = false ∧
  (Demo.CSV Demo.piped Demo.w0).1.1 =
    (None, Some (InvalidDelimiter (reg := Demo.registry))) ∧
  validDelimiter (Delimiter Demo.blank) = true ∧
  Fields Demo.blank = None ∧
  (Demo.CSV Demo.blank Demo.w0).1.1 =
    (None, Some (MissingFields (reg := Demo.registry))).
Proof.
  destruct (CSV_validation_order (uni := Demo.unicode) (reg := Demo.registry))
    as (Hdelim & Hfields).
  split; [reflexivity|].
  split; [apply (Hdelim Demo.piped Demo.w0); reflexivity|].
  split; [reflexivity|]. split; [reflexivity|].
  apply (Hfields Demo.blank Demo.w0); [reflexivity | left; reflexivity].
Defined.

Lemma CSV_missing_row_count_witness :
  validDelimiter (Delimiter Demo.rowless) = true ∧
  RowCount Demo.rowless <= 0 ∧
  (Demo.CSV Demo.rowless Demo.w0).1.1 =
    (None, Some (MissingRowCount (reg := Demo.registry))) ∧
  (Demo.CSV Demo.rowless Demo.w0).2 = Demo.w0.
Proof.
  split; [reflexivity|]. split; [cbn; lia|].
  apply (CSV_missing_row_count (reg := Demo.registry) Demo.rowless Demo.w0
           [Demo.field "id" "autoincrement"]);
    [reflexivity | reflexivity | discriminate | cbn; lia].
Defined.

(** C5 as it is stated fails: with no field list the missing-fields error
    comes first *)
Lemma CSV_missing_row_count_counterexample :
  RowCount Demo.blank <= 0 ∧
  (Demo.CSV Demo.blank Demo.w0).1.1 =
    (None, Some (MissingFields (reg := Demo.registry))) ∧
  (Demo.CSV Demo.blank Demo.w0).1.1 ≠
    (None, Some (MissingRowCount (reg := Demo.registry))).
Proof.
  split; [cbn; lia|]. split; [reflexivity|].
  vm_compute. discriminate.
Qed.

Lemma CSV_unknown_function_witness :
  validDelimiter (Delimiter Demo.unknown2) = true ∧
  2 <= RowCount Demo.unknown2 ∧
  GetFuncLookup (Registry := Demo.registry) "nosuch" = None ∧
  (Demo.CSV Demo.unknown2 Demo.w0).1.1 =
    (None, Some (UnknownFunction (reg := Demo.registry) "nosuch")).
Proof.
  split; [reflexivity|]. split; [cbn; lia|]. split; [reflexivity|].
  apply (CSV_unknown_function (reg := Demo.registry) Demo.unknown2 Demo.w0
           [Demo.field "id" "autoincrement"] (Demo.field "x" "nosuch") []
           ["1"] Demo.w0);
    [reflexivity | reflexivity | cbn; lia | reflexivity | discriminate | reflexivity].
Defined.

(** C6 as it is stated fails: with a row count of one no cell is built,
    and the generator that is not registered goes unnoticed *)
Lemma CSV_unknown_function_counterexample :
  validDelimiter (Delimiter Demo.unknown1) = true ∧
  1 <= RowCount Demo.unknown1 ∧
  Fields Demo.unknown1 = Some [Demo.field "id" "nosuch"] ∧
  GetFuncLookup (Registry := Demo.registry) "nosuch" = None ∧
  (Demo.CSV Demo.unknown1 Demo.w0).1.1 = (Some ("id" +:+ String lf ""), None) ∧
  (Demo.CSV Demo.unknown1 Demo.w0).1.1 ≠
    (None, Some (UnknownFunction (reg := Demo.registry) "nosuch")).
Proof.
  split; [reflexivity|]. split; [cbn; lia|]. split; [reflexivity|].
  split; [reflexivity|]. split; [reflexivity|].
  vm_compute. discriminate.
Qed.

Lemma CSV_generator_result_witness :
  ((Demo.CSV Demo.failing Demo.w0).1.1 = (None, Some "boom") ∧
   (Demo.CSV Demo.failing Demo.w0).2 = Demo.tick (Demo.tick Demo.w0)) ∧
  ∃ out co' w',
    Demo.CSV Demo.counted Demo.w0 = ((Some out, None), co', w') ∧
    ∃ fields grid,
      Fields Demo.counted = Some fields ∧
      ReadAll (delimiterChar Demo.counted) out = Some grid ∧
      forall i j field,
        1 <= i < RowCount Demo.counted ->
        fields !! j = Some field ->
        Function field ≠ "autoincrement" ->
        ∃ row info value w1 w2,
          grid !! Z.to_nat i = Some row ∧
          GetFuncLookup (Registry := Demo.registry) (Function field) = Some info ∧
          Call info (Params field) info w1 = ((value, None), w2) ∧
          row !! j = Some (Sprintf_v value).
Proof.
  destruct (CSV_generator_result (uni := Demo.unicode) (reg := Demo.registry))
    as (Herr & Hok).
  split.
  - apply (Herr Demo.failing Demo.w0
             [Demo.field "id" "autoincrement"] (Demo.field "c" "failat2") []
             3 [["1"; "ok"]; ["2"; "ok"]] (Demo.tick (Demo.tick Demo.w0))
             ["3"] (Demo.tick (Demo.tick Demo.w0)) 2%nat "" "boom"
             (Demo.tick (Demo.tick Demo.w0)));
      [reflexivity | reflexivity | cbn; lia | reflexivity | reflexivity
      | discriminate | reflexivity | reflexivity].
  - eexists _, _, _. split; [reflexivity|].
    eapply (Hok Demo.counted Demo.w0). reflexivity.
Defined.

Lemma CSV_frame_witness :
  (Delimiter Demo.counted = "," ∨ Delimiter Demo.counted = String tab "") ∧
  (Demo.CSV Demo.counted Demo.w0).1.2 = Demo.counted ∧
  heap (Demo.CSV Demo.counted Demo.w0).2 = heap Demo.w0.
Proof.
  destruct (CSV_frame (uni := Demo.unicode) (reg := Demo.registry)
              Demo.counted Demo.w0) as (_ & _ & _ & Hsame & Hheap).
  split; [left; reflexivity|].
  split; [apply Hsame; left; reflexivity|].
  apply Hheap. exact Demo_Call_keeps_heap.
Defined.

(** C8 as it is stated fails: the call writes the normalised delimiter
    into the caller's record *)
Lemma CSV_frame_counterexample :
  Delimiter Demo.blank = "" ∧
  Delimiter (Demo.CSV Demo.blank Demo.w0).1.2 = "," ∧
  (Demo.CSV Demo.blank Demo.w0).1.2 ≠ Demo.blank.
Proof.
  split; [reflexivity|]. split; [reflexivity|].
  vm_compute. discriminate.
Qed.

Lemma CSV_columns_witness :
  ∃ out co' w',
    Demo.CSV Demo.counted Demo.w0 = ((Some out, None), co', w') ∧
    ∃ fields header rows,
      Fields Demo.counted = Some fields ∧
      ReadAll (delimiterChar Demo.counted) out = Some (header :: rows) ∧
      header = map Name fields ∧ length header = length fields ∧
      forall k row,
        rows !! k = Some row ->
        length row = length fields ∧
        forall j field,
          fields !! j = Some field ->
          ∃ c w1 w2,
            row !! j = Some c ∧
            cell (reg := Demo.registry) (Z.of_nat k + 1) field w1 = (inl c, w2).
Proof.
  eexists _, _, _. split; [reflexivity|].
  eapply (CSV_columns (reg := Demo.registry) Demo.counted Demo.w0).
  reflexivity.
Defined.

Lemma Write_round_trip_witness :
  validDelim ","%char = true ∧
  ReadAll ","%char
    (buf (foldl (fun wr record => Write record wr)
            (setComma ","%char NewWriter)
            [["a,b"; String quote "x"; ""]; [String lf ""]])) =
  Some [["a,b"; String quote "x"; ""]; [String lf ""]].
Proof.
  destruct (Write_round_trip (uni := Demo.unicode) (reg := Demo.registry))
    as (Hwrite & _).
  split; [reflexivity|].
  apply (Hwrite ","%char [["a,b"; String quote "x"; ""]; [String lf ""]]);
    [reflexivity | repeat constructor; discriminate].
Defined.

End Generator.

(** ** More on the generator *)

Module Table.
Import GoString csv gofakeit.

Section Rows.
Context {uni : Unicode} {reg : Registry}.

Lemma writeAll_app comma (rows1 rows2 : list (list string)) :
  writeAll comma (rows1 ++ rows2) = writeAll comma rows1 +:+ writeAll comma rows2.
Proof.
  induction rows1 as [|record rows1 IH]; cbn [app writeAll].
  - now rewrite append_nil_l.
  - now rewrite IH, append_assoc.
Qed.

(** what was written ends with the line feed of the last record *)
Lemma writeAll_ends comma (rows : list (list string)) :
  rows ≠ [] -> ∃ body, writeAll comma rows = body +:+ String lf "".
Proof.
  induction rows as [|record rows IH]; [congruence|]. intros _.
  destruct rows as [|record' rows].
  - exists (writeFields comma 0 record). cbn [writeAll].
    now rewrite append_nil_r.
  - destruct IH as [body Hbody]; [discriminate|].
    exists (writeRecord comma record +:+ body).
    cbn [writeAll] in *. now rewrite Hbody, append_assoc.
Qed.

(** the rows of a longer body are the rows of the shorter one and then
    the rest *)
Lemma bodyRows_app a : forall b i fields w,
  bodyRows (a + b) i fields w =
  match bodyRows a i fields w with
  | (inr err, w1) => (inr err, w1)
  | (inl rows, w1) =>
      match bodyRows b (i + Z.of_nat a) fields w1 with
      | (inr err, w2) => (inr err, w2)
      | (inl rows', w2) => (inl (rows ++ rows'), w2)
      end
  end.
Proof.
  induction a as [|a IH]; intros b i fields w.
  - cbn [Nat.add bodyRows]. replace (i + Z.of_nat 0) with i by lia.
    now destruct (bodyRows b i fields w) as [[rows'|err] w2].
  - cbn [Nat.add bodyRows].
    destruct (rowCells i fields w) as [[r|err] w0]; [|reflexivity].
    rewrite IH.
    destruct (bodyRows a (i + 1) fields w0) as [[rows|err] w1]; [|reflexivity].
    replace (i + 1 + Z.of_nat a) with (i + Z.of_nat (S a)) by lia.
    now destruct (bodyRows b (i + Z.of_nat (S a)) fields w1) as [[rows'|err] w2].
Qed.

(** X1: a call returns either bytes and no error or an error and no
    bytes, and the bytes end with a line feed *)
Theorem CSV_output_or_error co w :
  match (CSV co w).1.1 with
  | (Some out, None) => ∃ body, out = body +:+ String lf ""
  | (None, Some _) => True
  | _ => False
  end.
Proof.
  rewrite Refinement.CSV_Generate. cbn [fst].
  destruct (Generate co w) as [[grid|err] w'] eqn:Hg; cbn [fst encoded]; [|exact I].
  destruct (Generator.Generate_grid _ _ _ _ Hg) as (fields & rows & _ & _ & _ & _ & _ & ->).
  now apply writeAll_ends.
Qed.

Lemma normalize_idempotent d : normalize (normalize d) = normalize d.
Proof.
  destruct (String.eqb_spec d "") as [->|Hd]; [reflexivity|].
  rewrite (Refinement.normalize_nonempty d) by assumption.
  destruct (String.eqb (strings.ToLower d) "tab") eqn:E; [reflexivity|].
  rewrite Refinement.normalize_nonempty by assumption.
  now rewrite E.
Qed.

(** X2: a second call with the record as the first call left it does
    what the first call did *)
Theorem CSV_again co w : CSV (CSV co w).1.2 w = CSV co w.
Proof.
  apply Generator.CSV_same_delimiter;
    rewrite Refinement.CSV_Generate; cbn [fst snd setDelimiter Delimiter RowCount Fields];
    [apply normalize_idempotent | reflexivity | reflexivity].
Qed.

(** X3: with a row count of one the output is the header line alone, and
    no generator is looked up or called *)
Theorem CSV_header_only co w fields :
  validDelimiter (Delimiter co) = true ->
  Fields co = Some fields ->
  fields ≠ [] ->
  RowCount co = 1 ->
  (CSV co w).1.1 =
    (Some (writeRecord (delimiterChar co) (map Name fields)), None) ∧
  (CSV co w).2 = w.
Proof.
  intros Hv Hf Hne Hn. rewrite Refinement.CSV_Generate.
  rewrite (Generator.Generate_valid co w fields) by (auto; lia).
  rewrite Hn. change (Z.to_nat (1 - 1)) with O.
  cbn [bodyRows fst snd encoded writeAll].
  now rewrite append_nil_r.
Qed.

(** a row of [autoincrement] fields is the row index in each cell *)
Lemma rowCells_autoincrement i fields : forall w,
  Forall (fun field => Function field = "autoincrement") fields ->
  rowCells i fields w = (inl (replicate (length fields) (Sprintf_d i)), w).
Proof.
  induction fields as [|field rest IH]; intros w Hall; cbn [rowCells length replicate].
  - reflexivity.
  - apply Forall_cons in Hall as [Hf Hrest].
    rewrite Generator.cell_autoincrement by assumption.
    now rewrite IH.
Qed.

Lemma bodyRows_autoincrement n : forall i fields w,
  Forall (fun field => Function field = "autoincrement") fields ->
  bodyRows n i fields w = (inl (indexRows n i (length fields)), w).
Proof.
  induction n as [|n IH]; intros i fields w Hall; cbn [bodyRows].
  - reflexivity.
  - rewrite rowCells_autoincrement, IH by assumption.
    unfold indexRows. cbn [seq map].
    replace (i + Z.of_nat 0) with i by lia.
    rewrite <- seq_shift, map_map.
    do 3 f_equal. apply map_ext. intros k. do 2 f_equal. lia.
Qed.

(** X4: a request whose fields are all [autoincrement] cannot fail once
    it is valid: for any registry it returns the table of the row
    indices 1 to [RowCount - 1], each in every cell of its row, and
    leaves the world as it was *)
Theorem CSV_autoincrement_only co w fields :
  validDelimiter (Delimiter co) = true ->
  Fields co = Some fields ->
  fields ≠ [] ->
  1 <= RowCount co ->
  Forall (fun field => Function field = "autoincrement") fields ->
  (CSV co w).1.1 =
    (Some (writeAll (delimiterChar co)
             (map Name fields ::
              indexRows (Z.to_nat (RowCount co - 1)) 1 (length fields))),
     None) ∧
  (CSV co w).2 = w.
Proof.
  intros Hv Hf Hne Hn Hall. rewrite Refinement.CSV_Generate.
  rewrite (Generator.Generate_valid co w fields) by (auto; lia).
  now rewrite bodyRows_autoincrement.
Qed.

(** X5: one more row asked for is one more record at the end: when the
    call with [RowCount + 1] succeeds, so does the call with [RowCount],
    and the longer output is the shorter one followed by the record of row
    [RowCount] *)
Theorem CSV_one_more_row co1 co2 w out2 co2' w2 :
  Delimiter co1 = Delimiter co2 ->
  Fields co1 = Fields co2 ->
  1 <= RowCount co1 ->
  RowCount co2 = RowCount co1 + 1 ->
  CSV co2 w = ((Some out2, None), co2', w2) ->
  ∃ out1 co1' w1 fields row,
    CSV co1 w = ((Some out1, None), co1', w1) ∧
    Fields co1 = Some fields ∧
    rowCells (RowCount co1) fields w1 = (inl row, w2) ∧
    out2 = out1 +:+ writeRecord (delimiterChar co1) row.
Proof.
  intros Hd Hf Hn Hn2 E.
  destruct (Generator.CSV_success _ _ _ _ _ E)
    as (fields & rows2 & Hv & Hf2 & Hne & _ & Hb & _).
  rewrite Refinement.CSV_Generate in E.
  rewrite (Generator.Generate_valid co2 w fields) in E by (auto; lia).
  rewrite Hb in E. cbn [fst snd encoded] in E.
  injection E as Hout _.
  replace (Z.to_nat (RowCount co2 - 1))
    with (Z.to_nat (RowCount co1 - 1) + 1)%nat in Hb by lia.
  rewrite bodyRows_app in Hb.
  destruct (bodyRows (Z.to_nat (RowCount co1 - 1)) 1 fields w)
    as [[rows1|err] w1] eqn:Hb1; [|discriminate].
  replace (1 + Z.of_nat (Z.to_nat (RowCount co1 - 1))) with (RowCount co1) in Hb by lia.
  cbn [bodyRows] in Hb.
  destruct (rowCells (RowCount co1) fields w1) as [[row|err] w3] eqn:Hr; [|discriminate].
  inversion Hb; subst rows2 w3.
  exists (writeAll (delimiterChar co1) (map Name fields :: rows1)),
         (setDelimiter (normalize (Delimiter co1)) co1), w1, fields, row.
  rewrite Hf, Hf2.
  split.
  - rewrite Refinement.CSV_Generate.
    rewrite (Generator.Generate_valid co1 w fields)
      by (rewrite ?Hd, ?Hf; auto; lia).
    now rewrite Hb1.
  - split; [reflexivity|]. split; [assumption|].
    rewrite <- Hout.
    unfold delimiterChar. rewrite Hd. fold (delimiterChar co2).
    change (map Name fields :: rows1 ++ [row])
      with ((map Name fields :: rows1) ++ [row]).
    rewrite writeAll_app. cbn [writeAll].
    now rewrite append_nil_r, !append_assoc.
Qed.

(** X6: the first error stays the error: when a call with a row count of
    one or more ends with an error, a call that asks for more rows ends
    with the same error in the same world *)
Theorem CSV_error_stays co1 co2 w err :
  Delimiter co1 = Delimiter co2 ->
  Fields co1 = Fields co2 ->
  1 <= RowCount co1 <= RowCount co2 ->
  (CSV co1 w).1.1 = (None, Some err) ->
  (CSV co2 w).1.1 = (None, Some err) ∧ (CSV co2 w).2 = (CSV co1 w).2.
Proof.
  intros Hd Hf Hn. rewrite !Refinement.CSV_Generate. cbn [fst snd].
  unfold Generate. rewrite <- Hd, <- Hf.
  destruct (negb (validDelimiter (Delimiter co1))); [auto|].
  destruct (Fields co1) as [[|field fields]|]; auto.
  destruct (Z.leb_spec (RowCount co1) 0); [lia|].
  destruct (Z.leb_spec (RowCount co2) 0); [lia|].
  replace (Z.to_nat (RowCount co2 - 1))
    with (Z.to_nat (RowCount co1 - 1) + Z.to_nat (RowCount co2 - RowCount co1))%nat
    by lia.
  rewrite bodyRows_app.
  destruct (bodyRows (Z.to_nat (RowCount co1 - 1)) 1 (field :: fields) w)
    as [[rows|e] w1]; cbn [fst snd encoded]; [discriminate|].
  auto.
Qed.

(** a cell depends on the function and the parameters of its field only *)
Lemma cell_same_generator i field1 field2 w :
  Function field1 = Function field2 ->
  Params field1 = Params field2 ->
  cell i field1 w = cell i field2 w.
Proof. intros Hf Hp. unfold cell. now rewrite Hf, Hp. Qed.

Lemma rowCells_same_generators i fields1 : forall fields2 w,
  map Function fields1 = map Function fields2 ->
  map Params fields1 = map Params fields2 ->
  rowCells i fields1 w = rowCells i fields2 w.
Proof.
  induction fields1 as [|f1 rest1 IH]; intros [|f2 rest2] w Hf Hp;
    try discriminate; [reflexivity|].
  cbn [map] in Hf, Hp. inversion Hf. inversion Hp.
  cbn [rowCells]. rewrite (cell_same_generator i f1 f2) by assumption.
  destruct (cell i f2 w) as [[c|err] w1]; [|reflexivity].
  now rewrite (IH rest2).
Qed.

Lemma bodyRows_same_generators n : forall i fields1 fields2 w,
  map Function fields1 = map Function fields2 ->
  map Params fields1 = map Params fields2 ->
  bodyRows n i fields1 w = bodyRows n i fields2 w.
Proof.
  induction n as [|n IH]; intros i fields1 fields2 w Hf Hp; cbn [bodyRows].
  - reflexivity.
  - rewrite (rowCells_same_generators i fields1 fields2) by assumption.
    destruct (rowCells i fields2 w) as [[r|err] w1]; [|reflexivity].
    now rewrite (IH (i + 1) fields1 fields2).
Qed.

(** X7: the names of the fields show in the header line and nowhere
    else: two requests that differ in the names only fail alike or give
    outputs that are each its own header line followed by the same
    body, and leave the same world *)
Theorem CSV_names_in_header_only co1 co2 w fields1 fields2 :
  Delimiter co1 = Delimiter co2 ->
  RowCount co1 = RowCount co2 ->
  Fields co1 = Some fields1 ->
  Fields co2 = Some fields2 ->
  map Function fields1 = map Function fields2 ->
  map Params fields1 = map Params fields2 ->
  (CSV co1 w).2 = (CSV co2 w).2 ∧
  match (CSV co1 w).1.1, (CSV co2 w).1.1 with
  | (Some out1, None), (Some out2, None) =>
      ∃ body,
        out1 = writeRecord (delimiterChar co1) (map Name fields1) +:+ body ∧
        out2 = writeRecord (delimiterChar co1) (map Name fields2) +:+ body
  | (None, Some err1), (None, Some err2) => err1 = err2
  | _, _ => False
  end.
Proof.
  intros Hd Hn Hf1 Hf2 Hfun Hpar.
  rewrite !Refinement.CSV_Generate. cbn [fst snd].
  unfold Generate, delimiterChar. rewrite <- Hd, <- Hn, Hf1, Hf2.
  destruct (negb (validDelimiter (Delimiter co1))); [now split|].
  destruct fields1 as [|f1 rest1], fields2 as [|f2 rest2]; try discriminate;
    [now split|].
  destruct (RowCount co1 <=? 0); [now split|].
  rewrite (bodyRows_same_generators _ 1 (f1 :: rest1) (f2 :: rest2)) by assumption.
  destruct (bodyRows _ 1 (f2 :: rest2) w) as [[rows|err] w1];
    cbn [fst snd encoded]; [|now split].
  split; [reflexivity|].
  exists (writeAll (firstRune (normalize (Delimiter co1))) rows).
  cbn [writeAll]. unfold delimiterChar. rewrite <- Hd. now split.
Qed.

End Rows.

Lemma CSV_header_only_witness :
  validDelimiter (uni := Demo.unicode) (Delimiter Demo.unknown1) = true ∧
  RowCount Demo.unknown1 = 1 ∧
  (Demo.CSV Demo.unknown1 Demo.w0).1.1 =
    (Some (writeRecord (H := Demo.unicode)
             (delimiterChar (uni := Demo.unicode) Demo.unknown1) ["id"]), None) ∧
  (Demo.CSV Demo.unknown1 Demo.w0).2 = Demo.w0.
Proof.
  split; [reflexivity|]. split; [reflexivity|].
  apply (CSV_header_only (reg := Demo.registry) Demo.unknown1 Demo.w0
           [Demo.field "id" "nosuch"]);
    [reflexivity | reflexivity | discriminate | reflexivity].
Defined.

Lemma CSV_autoincrement_only_witness :
  validDelimiter (uni := Demo.unicode) (Delimiter Demo.indices) = true ∧
  1 <= RowCount Demo.indices ∧
  (Demo.CSV Demo.indices Demo.w0).1.1 =
    (Some (writeAll (H := Demo.unicode)
             (delimiterChar (uni := Demo.unicode) Demo.indices)
             (["id"; "k"] :: indexRows 2 1 2)), None) ∧
  (Demo.CSV Demo.indices Demo.w0).2 = Demo.w0.
Proof.
  split; [reflexivity|]. split; [cbn; lia|].
  apply (CSV_autoincrement_only (reg := Demo.registry) Demo.indices Demo.w0
           [Demo.field "id" "autoincrement"; Demo.field "k" "autoincrement"]);
    [reflexivity | reflexivity | discriminate | cbn; lia
    | repeat constructor].
Defined.

Lemma CSV_one_more_row_witness :
  ∃ out2 co2' w2,
    Demo.CSV Demo.counted Demo.w0 = ((Some out2, None), co2', w2) ∧
    ∃ out1 co1' w1 fields row,
      Demo.CSV Demo.counted2 Demo.w0 = ((Some out1, None), co1', w1) ∧
      Fields Demo.counted2 = Some fields ∧
      rowCells (reg := Demo.registry) (RowCount Demo.counted2) fields w1 =
        (inl row, w2) ∧
      out2 = out1 +:+
             writeRecord (H := Demo.unicode)
               (delimiterChar (uni := Demo.unicode) Demo.counted2) row.
Proof.
  eexists _, _, _. split; [reflexivity|].
  eapply (CSV_one_more_row (reg := Demo.registry) Demo.counted2 Demo.counted Demo.w0);
    [reflexivity | reflexivity | cbn; lia | reflexivity | reflexivity].
Defined.

Lemma CSV_error_stays_witness :
  1 <= RowCount Demo.failing <= RowCount Demo.failing6 ∧
  (Demo.CSV Demo.failing Demo.w0).1.1 = (None, Some "boom") ∧
  (Demo.CSV Demo.failing6 Demo.w0).1.1 = (None, Some "boom") ∧
  (Demo.CSV Demo.failing6 Demo.w0).2 = (Demo.CSV Demo.failing Demo.w0).2.
Proof.
  split; [cbn; lia|]. split; [reflexivity|].
  apply (CSV_error_stays (reg := Demo.registry) Demo.failing Demo.failing6 Demo.w0);
    [reflexivity | reflexivity | cbn; lia | reflexivity].
Defined.

Lemma CSV_names_in_header_only_witness :
  (Demo.CSV Demo.counted Demo.w0).2 = (Demo.CSV Demo.renamed Demo.w0).2 ∧
  match (Demo.CSV Demo.counted Demo.w0).1.1, (Demo.CSV Demo.renamed Demo.w0).1.1 with
  | (Some out1, None), (Some out2, None) =>
      ∃ body,
        out1 = writeRecord (H := Demo.unicode)
                 (delimiterChar (uni := Demo.unicode) Demo.counted)
                 (map Name [Demo.field "id" "autoincrement"; Demo.field "n" "counter"])
               +:+ body ∧
        out2 = writeRecord (H := Demo.unicode)
                 (delimiterChar (uni := Demo.unicode) Demo.counted)
                 (map Name [Demo.field "row" "autoincrement";
                            Demo.field "count" "counter"])
               +:+ body
  | (None, Some err1), (None, Some err2) => err1 = err2
  | _, _ => False
  end.
Proof.
  apply (CSV_names_in_header_only (reg := Demo.registry)
           Demo.counted Demo.renamed Demo.w0);
    reflexivity.
Defined.

End Table.

(** ** The [csv] entry of the registry *)

Module LookupFacts.
Import GoString csv gofakeit lookup.

Section Command.
Context {uni : Unicode} {reg : Registry} {rd : Readers}.

Lemma decodeAll_app pre : forall rest w,
  decodeAll (pre ++ rest) w =
  match decodeAll pre w with
  | (inr err, w1) => (inr err, w1)
  | (inl fields, w1) =>
      match decodeAll rest w1 with
      | (inr err, w2) => (inr err, w2)
      | (inl fields', w2) => (inl (fields ++ fields'), w2)
      end
  end.
Proof.
  induction pre as [|f pre IH]; intros rest w; cbn [app decodeAll].
  - now destruct (decodeAll rest w) as [[fields'|err] w2].
  - destruct (json_Unmarshal f zeroField w) as [[field [err|]] w0]; [reflexivity|].
    rewrite IH.
    destruct (decodeAll pre w0) as [[fields|err] w1]; [|reflexivity].
    now destruct (decodeAll rest w1) as [[fields'|err] w2].
Qed.

Lemma decodeAll_length fieldsStr : forall w fields w',
  decodeAll fieldsStr w = (inl fields, w') -> length fields = length fieldsStr.
Proof.
  induction fieldsStr as [|f rest IH]; intros w fields w' E; cbn [decodeAll] in E.
  - now inversion E.
  - destruct (json_Unmarshal f zeroField w) as [[field [err|]] w0]; [discriminate|].
    destruct (decodeAll rest w0) as [[fs|err] w1] eqn:E'; [|discriminate].
    inversion E; subst. cbn. f_equal. eauto.
Qed.

(** the decoding loop fills the slots in order, each from its string *)
Lemma unmarshalLoop_fill fieldsStr : forall pre w,
  unmarshalLoop (length pre) fieldsStr
    (pre ++ replicate (length fieldsStr) zeroField) w =
  match decodeAll fieldsStr w with
  | (inr err, w') => (inr err, w')
  | (inl fields, w') => (inl (pre ++ fields), w')
  end.
Proof.
  induction fieldsStr as [|f rest IH]; intros pre w;
    cbn [unmarshalLoop decodeAll length replicate].
  - now rewrite app_nil_r.
  - rewrite list_lookup_middle by reflexivity.
    change (default zeroField (Some zeroField)) with zeroField.
    destruct (json_Unmarshal f zeroField w) as [[field [err|]] w0]; [reflexivity|].
    rewrite insert_app_r_alt, Nat.sub_diag by lia. cbn [insert list_insert].
    replace (pre ++ field :: replicate (length rest) zeroField)
      with ((pre ++ [field]) ++ replicate (length rest) zeroField)
      by now rewrite <- app_assoc.
    replace (S (length pre)) with (length (pre ++ [field]))
      by (rewrite length_app; cbn; lia).
    rewrite IH.
    destruct (decodeAll rest w0) as [[fields|err] w1]; [|reflexivity].
    now rewrite <- app_assoc.
Qed.

Lemma unmarshalLoop_decodeAll fieldsStr w :
  unmarshalLoop 0 fieldsStr (replicate (length fieldsStr) zeroField) w =
  decodeAll fieldsStr w.
Proof.
  pose proof (unmarshalLoop_fill fieldsStr [] w) as E.
  cbn [length app] in E. rewrite E.
  now destruct (decodeAll fieldsStr w) as [[fields|err] w'].
Qed.

(** a call of [CSV] returns bytes or an error, not both and not neither *)
Lemma CSV_result_cases co w :
  (∃ out, (CSV co w).1.1 = (Some out, None)) ∨
  (∃ err, (CSV co w).1.1 = (None, Some err)).
Proof.
  rewrite Refinement.CSV_Generate. cbn [fst].
  destruct (Generate co w) as [[grid|err] w']; cbn [fst encoded]; eauto.
Qed.

(** X8: when the three parameters are read and the field strings decode,
    the function literal returns what [CSV] returns for the record made
    of them, and leaves the world [CSV] leaves *)
Theorem csvCall_is_CSV m info w n w1 fieldsStr w2 fields w3 d w4 :
  GetInt info m "rowcount" w = ((n, None), w1) ->
  GetStringArray info m "fields" w1 = ((fieldsStr, None), w2) ->
  decodeAll fieldsStr w2 = (inl fields, w3) ->
  GetString info m "delimiter" w3 = ((d, None), w4) ->
  csvCall m info w =
    ((CSV (request n fieldsStr fields d) w4).1.1,
     (CSV (request n fieldsStr fields d) w4).2).
Proof.
  intros Hn Hfs Hdec Hd. unfold csvCall. rewrite Hn, Hfs.
  assert (Hco : (if (0 <? length fieldsStr)%nat
                 then match unmarshalLoop 0 fieldsStr
                              (replicate (length fieldsStr) zeroField) w2 with
                      | (inr err, w3) => (inr err, w3)
                      | (inl fields, w3) =>
                          (inl (setFields (Some fields)
                                  (setRowCount n
                                     {| Delimiter := ""; RowCount := 0;
                                        Fields := None |})), w3)
                      end
                 else (inl (setRowCount n
                              {| Delimiter := ""; RowCount := 0; Fields := None |}),
                       w2)) =
                (inl (request n fieldsStr fields ""), w3)).
  { destruct fieldsStr as [|f rest].
    - cbn in Hdec. inversion Hdec; subst. reflexivity.
    - change (0 <? length (f :: rest))%nat with true. cbv iota.
      rewrite unmarshalLoop_decodeAll, Hdec. reflexivity. }
  cbv zeta. rewrite Hco, Hd.
  change (setDelimiter d (request n fieldsStr fields ""))
    with (request n fieldsStr fields d).
  destruct (CSV_result_cases (request n fieldsStr fields d) w4) as [[out E]|[err E]];
    destruct (CSV (request n fieldsStr fields d) w4) as [[[o e] co'] w5];
    cbn [fst snd] in E |- *; inversion E; subst; reflexivity.
Qed.

(** X9: a field string that does not decode ends the call with the
    decoding error of the function literal, not with the decoder's own
    error, before the delimiter is read and whatever the row count is *)
Theorem csvCall_decode_error m info w n w1 pre f post w2 fields w3 field err w4 :
  GetInt info m "rowcount" w = ((n, None), w1) ->
  GetStringArray info m "fields" w1 = ((pre ++ f :: post, None), w2) ->
  decodeAll pre w2 = (inl fields, w3) ->
  json_Unmarshal f zeroField w3 = ((field, Some err), w4) ->
  csvCall m info w =
    ((None, Some (errors_New "Unable to decode json string")), w4).
Proof.
  intros Hn Hfs Hpre Hf. unfold csvCall. rewrite Hn, Hfs.
  assert (Hpos : (0 <? length (pre ++ f :: post))%nat = true).
  { apply Nat.ltb_lt. rewrite length_app. cbn. lia. }
  rewrite Hpos, unmarshalLoop_decodeAll, decodeAll_app, Hpre.
  cbn [decodeAll]. now rewrite Hf.
Qed.

(** X10: with no field strings [Fields] stays nil, so the call ends with
    the missing-fields error when the delimiter is accepted and with the
    invalid-delimiter error when it is not, whatever the row count is *)
Theorem csvCall_no_fields m info w n w1 w2 d w3 :
  GetInt info m "rowcount" w = ((n, None), w1) ->
  GetStringArray info m "fields" w1 = (([], None), w2) ->
  GetString info m "delimiter" w2 = ((d, None), w3) ->
  csvCall m info w =
    ((None, Some (if validDelimiter d then MissingFields else InvalidDelimiter)),
     w3).
Proof.
  intros Hn Hfs Hd.
  rewrite (csvCall_is_CSV m info w n w1 [] w2 [] w2 d w3) by auto.
  rewrite Refinement.CSV_Generate. cbn [fst snd].
  unfold Generate, request. cbn [Delimiter RowCount Fields].
  now destruct (validDelimiter d).
Qed.

(** X11: the bytes of a successful call read back as a header with one
    name for each field string, in their order, and [rowcount - 1] rows *)
Theorem csvCall_table m info w out w' :
  csvCall m info w = ((Some out, None), w') ->
  ∃ n w1 fieldsStr w2 fields w3 d w4 rows,
    GetInt info m "rowcount" w = ((n, None), w1) ∧
    GetStringArray info m "fields" w1 = ((fieldsStr, None), w2) ∧
    decodeAll fieldsStr w2 = (inl fields, w3) ∧
    GetString info m "delimiter" w3 = ((d, None), w4) ∧
    length fields = length fieldsStr ∧
    ReadAll (delimiterChar (request n fieldsStr fields d)) out =
      Some (map Name fields :: rows) ∧
    Z.of_nat (length rows) = n - 1.
Proof.
  intros E.
  destruct (GetInt info m "rowcount" w) as [[n [err|]] w1] eqn:Hn.
  { unfold csvCall in E. rewrite Hn in E. discriminate. }
  destruct (GetStringArray info m "fields" w1) as [[fieldsStr [err|]] w2] eqn:Hfs.
  { unfold csvCall in E. rewrite Hn, Hfs in E. discriminate. }
  destruct (decodeAll fieldsStr w2) as [[fields|err] w3] eqn:Hdec.
  2:{ unfold csvCall in E. rewrite Hn, Hfs in E.
      destruct fieldsStr as [|f rest]; [discriminate|].
      change (0 <? length (f :: rest))%nat with true in E. cbv iota in E.
      rewrite unmarshalLoop_decodeAll, Hdec in E. discriminate. }
  destruct (GetString info m "delimiter" w3) as [[d [err|]] w4] eqn:Hd.
  { unfold csvCall in E. rewrite Hn, Hfs in E.
    destruct fieldsStr as [|f rest].
    - cbn in Hdec. inversion Hdec; subst. cbn in E. rewrite Hd in E. discriminate.
    - change (0 <? length (f :: rest))%nat with true in E. cbv iota in E.
      rewrite unmarshalLoop_decodeAll, Hdec in E. cbv zeta in E.
      rewrite Hd in E. discriminate. }
  rewrite (csvCall_is_CSV m info w n w1 fieldsStr w2 fields w3 d w4) in E by auto.
  destruct (CSV (request n fieldsStr fields d) w4) as [[r co'] w5] eqn:EC.
  cbn [fst snd] in E. inversion E; subst r w5.
  destruct (Generator.CSV_success _ _ _ _ _ EC)
    as (fs & rows & _ & Hf & _ & Hpos & Hb & Hr).
  assert (fs = fields) as ->.
  { unfold request in Hf. cbn [Fields] in Hf.
    destruct fieldsStr; [discriminate | now inversion Hf]. }
  exists n, w1, fieldsStr, w2, fields, w3, d, w4, rows.
  repeat split; auto.
  - eapply decodeAll_length; eauto.
  - apply GridFacts.bodyRows_length in Hb. cbn [RowCount request] in Hb, Hpos. lia.
Qed.

End Command.

Lemma csvCall_is_CSV_witness :
  Demo.csvCall (Some 1%positive) 0%nat
    (Demo.params ["3"] ["id:autoincrement"; "n:counter"] [","]) =
  ((Demo.CSV Demo.counted
      (Demo.params ["3"] ["id:autoincrement"; "n:counter"] [","])).1.1,
   (Demo.CSV Demo.counted
      (Demo.params ["3"] ["id:autoincrement"; "n:counter"] [","])).2).
Proof.
  eapply (csvCall_is_CSV (rd := Demo.readers) (Some 1%positive) 0%nat
           (Demo.params ["3"] ["id:autoincrement"; "n:counter"] [","])
           3 _ ["id:autoincrement"; "n:counter"] _
           [Demo.field "id" "autoincrement"; Demo.field "n" "counter"] _ "," _);
    reflexivity.
Defined.

Lemma csvCall_decode_error_witness :
  Demo.csvCall (Some 1%positive) 0%nat
    (Demo.params ["0"] ["id:autoincrement"; "ncounter"] ["|"]) =
  ((None, Some "Unable to decode json string"),
   Demo.params ["0"] ["id:autoincrement"; "ncounter"] ["|"]).
Proof.
  eapply (csvCall_decode_error (rd := Demo.readers) (Some 1%positive) 0%nat
           (Demo.params ["0"] ["id:autoincrement"; "ncounter"] ["|"])
           0 _ ["id:autoincrement"] "ncounter" [] _
           [Demo.field "id" "autoincrement"] _ zeroField "no colon" _);
    reflexivity.
Defined.

Lemma csvCall_no_fields_witness :
  Demo.csvCall (Some 1%positive) 0%nat (Demo.params ["3"] [] ["|"]) =
  ((None, Some "Invalid delimiter type"), Demo.params ["3"] [] ["|"]).
Proof.
  eapply (csvCall_no_fields (rd := Demo.readers) (Some 1%positive) 0%nat
           (Demo.params ["3"] [] ["|"]) 3 _ _ "|" _);
    reflexivity.
Defined.

Lemma csvCall_table_witness :
  ∃ out w',
    Demo.csvCall (Some 1%positive) 0%nat
      (Demo.params ["3"] ["id:autoincrement"; "n:counter"] [","]) =
    ((Some out, None), w') ∧
    ∃ n w1 fieldsStr w2 fields w3 d w4 rows,
      GetInt (Readers := Demo.readers) 0%nat (Some 1%positive) "rowcount"
        (Demo.params ["3"] ["id:autoincrement"; "n:counter"] [","]) =
        ((n, None), w1) ∧
      GetStringArray (Readers := Demo.readers) 0%nat (Some 1%positive) "fields" w1 =
        ((fieldsStr, None), w2) ∧
      decodeAll (rd := Demo.readers) fieldsStr w2 = (inl fields, w3) ∧
      GetString (Readers := Demo.readers) 0%nat (Some 1%positive) "delimiter" w3 =
        ((d, None), w4) ∧
      length fields = length fieldsStr ∧
      ReadAll (delimiterChar (uni := Demo.unicode) (request n fieldsStr fields d)) out =
        Some (map Name fields :: rows) ∧
      Z.of_nat (length rows) = n - 1.
Proof.
  eexists _, _. split; [reflexivity|].
  eapply (csvCall_table (rd := Demo.readers) (Some 1%positive) 0%nat).
  reflexivity.
Defined.

End LookupFacts.
